(** * PocketLawyer: the retrieval-augmented pipeline, embedded in Rocq

    Shallow embedding of
    - [src/data_ingestion/document_processor.py] (cleaning, chunking, domain
      tagging),
    - [src/rag_system/vector_store.py] and [src/rag_system/retriever.py]
      (similarity search and result formatting),
    - [src/rag_system/generator.py] (response assembly),
    followed by the properties of these functions.

    Conventions of the embedding.
    - A Python [str] is a list of characters, [list ascii]; the model covers
      ASCII text (code points below 128).  Bytes above 127 are treated as
      neither letters, digits nor white space.
    - Python exceptions are values of [exn] carried by the [result] monad;
      [try ... except Exception] is [try_except].
    - Python floats are modelled by exact rationals [Q]; rounding is outside
      the model, and so is the range of the floats: a score too large to
      be a float makes Python raise [OverflowError], so statements on the
      value of a sum or a mean are about scores within that range.
    - The vector database (ChromaDB) and the text-generation pipeline
      (transformers) are external: they appear as functions stored in the
      records [VectorStore] and [LegalResponseGenerator]. *)

From Stdlib Require Import String Ascii List Arith Bool Lia ZArith QArith Lqa.
From Stdlib Require Import DecimalString.
Import ListNotations.

Local Open Scope string_scope.
Local Open Scope list_scope.
Local Open Scope nat_scope.

(* ================================================================== *)
(** * Python strings *)
(* ================================================================== *)

Definition str := list ascii.

Definition lit (s : string) : str := list_ascii_of_string s.
Coercion lit : string >-> str.

(** [str.isspace] on ASCII: TAB, LF, VT, FF, CR, FS, GS, RS, US and space.
    The same set is what [\s] matches in [re]. *)
Definition is_space (c : ascii) : bool :=
  let n := nat_of_ascii c in
  ((9 <=? n) && (n <=? 13)) || ((28 <=? n) && (n <=? 32)).

Definition is_digit (c : ascii) : bool :=
  let n := nat_of_ascii c in (48 <=? n) && (n <=? 57).

Definition is_upper (c : ascii) : bool :=
  let n := nat_of_ascii c in (65 <=? n) && (n <=? 90).

Definition is_lower (c : ascii) : bool :=
  let n := nat_of_ascii c in (97 <=? n) && (n <=? 122).

(** [\w] on ASCII: letters, digits and the underscore. *)
Definition is_word (c : ascii) : bool :=
  is_upper c || is_lower c || is_digit c || Ascii.eqb c "_"%char.

Definition lower_char (c : ascii) : ascii :=
  if is_upper c then ascii_of_nat (nat_of_ascii c + 32) else c.

(** [text.lower()] *)
Definition lower (t : str) : str := map lower_char t.

(** [t.startswith(p)] *)
Fixpoint startswith (p t : str) : bool :=
  match p, t with
  | [], _ => true
  | _ :: _, [] => false
  | a :: p', b :: t' => Ascii.eqb a b && startswith p' t'
  end.

(** [needle in hay] *)
Fixpoint contains (needle hay : str) : bool :=
  match hay with
  | [] => startswith needle []
  | _ :: hay' => startswith needle hay || contains needle hay'
  end.

Definition cons_head (c : ascii) (l : list str) : list str :=
  match l with
  | p :: ps => (c :: p) :: ps
  | [] => [[c]]
  end.

(** [t.split(sep)] for a non-empty separator: left to right, matches do not
    overlap.  The recursion skips a whole separator at a match, hence the
    fuel, which [split] sets to the length of the text. *)
Fixpoint split_fuel (fuel : nat) (sep t : str) : list str :=
  match fuel with
  | O => [t]
  | S f =>
    match t with
    | [] => [[]]
    | c :: rest =>
      if startswith sep t
      then [] :: split_fuel f sep (skipn (length sep) t)
      else cons_head c (split_fuel f sep rest)
    end
  end.

Definition split (sep t : str) : list str := split_fuel (length t) sep t.

(** [sep.join(l)] *)
Fixpoint join (sep : str) (l : list str) : str :=
  match l with
  | [] => []
  | x :: rest =>
    match rest with
    | [] => x
    | _ :: _ => x ++ sep ++ join sep rest
    end
  end.

(** [t.replace(old, new)] for a non-empty [old]: every non-overlapping
    occurrence, left to right; the pieces between occurrences are those of
    [split]. *)
Definition replace (old new t : str) : str := join new (split old t).

Fixpoint lstrip (t : str) : str :=
  match t with
  | [] => []
  | c :: rest => if is_space c then lstrip rest else t
  end.

Definition rstrip (t : str) : str := rev (lstrip (rev t)).

(** [t.strip()] *)
Definition strip (t : str) : str := rstrip (lstrip t).

(** [t.split()]: the maximal runs of non-space characters. *)
Fixpoint words (t : str) : list str :=
  match t with
  | [] => []
  | c :: rest =>
    if is_space c then words rest
    else
      match rest with
      | [] => [[c]]
      | d :: _ =>
        if is_space d then [c] :: words rest
        else cons_head c (words rest)
      end
  end.

(** [l[-n:]] for [n >= 0].  Python reads [-0] as [0], so [l[-0:]] is the
    whole list. *)
Definition py_tail {A : Type} (n : nat) (l : list A) : list A :=
  if n =? 0 then l else skipn (length l - n) l.

(** [t[:n]] *)
Definition py_prefix {A : Type} (n : nat) (l : list A) : list A := firstn n l.

(** Truth value of a string: non-empty. *)
Definition truthy (t : str) : bool :=
  match t with [] => false | _ :: _ => true end.

(** [str(n)] for a natural number. *)
Definition str_of_nat (n : nat) : str :=
  lit (NilEmpty.string_of_uint (Nat.to_uint n)).

(* ================================================================== *)
(** * Exceptions *)
(* ================================================================== *)

Inductive exn : Type :=
| KeyError (key : string)
| IndexError
| TypeError
| IOError
| RuntimeError (msg : string).

Inductive result (A : Type) : Type :=
| Ok (a : A)
| Raise (e : exn).
Arguments Ok {A} a.
Arguments Raise {A} e.

Definition bind {A B : Type} (m : result A) (k : A -> result B) : result B :=
  match m with
  | Ok a => k a
  | Raise e => Raise e
  end.

Notation "x <- m ;; k" := (bind m (fun x => k))
  (at level 61, m at next level, right associativity).

(** [try: body  except Exception: handler] *)
Definition try_except {A : Type} (body : result A) (handler : exn -> result A)
  : result A :=
  match body with
  | Ok a => Ok a
  | Raise e => handler e
  end.

Fixpoint mapM {A B : Type} (f : A -> result B) (l : list A) : result (list B) :=
  match l with
  | [] => Ok []
  | a :: rest => b <- f a ;; bs <- mapM f rest ;; Ok (b :: bs)
  end.

(** [enumerate(l)] *)
Definition enumerate {A : Type} (l : list A) : list (nat * A) :=
  combine (seq 0 (length l)) l.

(* ================================================================== *)
(** * config.py *)
(* ================================================================== *)

Module Config.
Definition CHUNK_SIZE : nat := 1000.
Definition CHUNK_OVERLAP : nat := 200.
End Config.

(* ================================================================== *)
(** * data_ingestion/document_processor.py *)
(* ================================================================== *)

Module Ingestion.

Record DocumentProcessor : Type := {
  chunk_size : nat;
  chunk_overlap : nat
}.

(** [DocumentProcessor.__init__] *)
Definition new_processor : DocumentProcessor :=
  {| chunk_size := Config.CHUNK_SIZE; chunk_overlap := Config.CHUNK_OVERLAP |}.

Record Metadata : Type := {
  source : str;
  type : str;
  chunk_id : nat;
  total_chunks : nat;
  domain : str
}.

Record Chunk : Type := {
  content : str;
  metadata : Metadata
}.

(** [re.sub(r'\s+', ' ', text)]: [in_run] tells that the previous character
    was white space, already replaced. *)
Fixpoint sub_spaces (in_run : bool) (t : str) : str :=
  match t with
  | [] => []
  | c :: rest =>
    if is_space c
    then if in_run then sub_spaces true rest
         else " "%char :: sub_spaces true rest
    else c :: sub_spaces false rest
  end.

(** The characters kept by the second substitution of [_clean_text]: word
    characters, white space, and the punctuation . , ; : ( ) - [ ] ' / &
    and the double quote (code 34). *)
Definition legal_char (c : ascii) : bool :=
  is_word c || is_space c ||
  existsb (Ascii.eqb c) (lit ".,;:()-[]'/&") || (nat_of_ascii c =? 34).

Fixpoint drop_digits (t : str) : str :=
  match t with
  | [] => []
  | c :: rest => if is_digit c then drop_digits rest else t
  end.

(** A match of [--- Page \d+ ---] at the head of [t]: the text after it.
    [\d+] is greedy and the next pattern character is a space, so the run of
    digits is always taken whole. *)
Definition match_page_marker (t : str) : option str :=
  if startswith (lit "--- Page ") t then
    let r := skipn 9 t in
    let r' := drop_digits r in
    if (length r' <? length r) && startswith (lit " ---") r'
    then Some (skipn 4 r')
    else None
  else None.

(** [re.sub(r'--- Page \d+ ---', '', text)] *)
Fixpoint remove_page_markers (fuel : nat) (t : str) : str :=
  match fuel with
  | O => t
  | S f =>
    match t with
    | [] => []
    | c :: rest =>
      match match_page_marker t with
      | Some after => remove_page_markers f after
      | None => c :: remove_page_markers f rest
      end
    end
  end.

(** [DocumentProcessor._clean_text], on ASCII text.  The replacement of the
    rupee sign by ["Rs."] comes after the character filter, which has
    already deleted the sign (it is not in the class kept); the sign is
    outside the ASCII alphabet of this model, so that step is the identity
    here.  On text with characters above 127 the model and the code part:
    Python's [\w], [\s] and [\d] take in the letters, digits and white
    space of all of Unicode, so the code keeps an accented letter that
    [legal_char] drops. *)
Definition _clean_text (text : str) : str :=
  let text := sub_spaces false text in
  let text := filter legal_char text in
  let text := remove_page_markers (length text) text in
  strip text.

(** One iteration of the loop of [_create_chunks]; the state is
    [(chunks, current_chunk)]. *)
Definition chunk_step (p : DocumentProcessor) (st : list str * str)
  (sentence : str) : list str * str :=
  let '(chunks, current_chunk) := st in
  if (chunk_size p <? length (current_chunk ++ sentence))
     && truthy current_chunk
  then
    let overlap_words := py_tail (chunk_overlap p) (words current_chunk) in
    (chunks ++ [strip current_chunk],
     join (lit " ") overlap_words ++ lit " " ++ sentence)
  else (chunks, current_chunk ++ sentence ++ lit ". ").

Definition flush (st : list str * str) : list str :=
  let '(chunks, current_chunk) := st in
  if truthy (strip current_chunk)
  then chunks ++ [strip current_chunk]
  else chunks.

(** [DocumentProcessor._create_chunks] *)
Definition _create_chunks (p : DocumentProcessor) (text : str) : list str :=
  let sentences := split (lit ". ") text in
  flush (fold_left (chunk_step p) sentences ([], [])).

Definition constitutional_keywords : list str :=
  map lit ["constitution"; "fundamental rights"; "directive principles";
           "amendment"; "article"; "schedule"].

Definition criminal_keywords : list str :=
  map lit ["criminal"; "offence"; "punishment"; "bail"; "arrest";
           "investigation"; "charge"; "ipc"; "bns"].

Definition civil_keywords : list str :=
  map lit ["civil"; "contract"; "property"; "damages"; "injunction";
           "suit"; "plaintiff"; "defendant"].

Definition family_keywords : list str :=
  map lit ["marriage"; "divorce"; "custody"; "maintenance";
           "adoption"; "succession"].

Definition corporate_keywords : list str :=
  map lit ["company"; "corporate"; "shares"; "director";
           "commercial"; "business"].

(** [sum(1 for keyword in keywords if keyword in text_lower)] *)
Definition keyword_score (keywords : list str) (text_lower : str) : nat :=
  list_sum (map (fun keyword => if contains keyword text_lower then 1 else 0)
                keywords).

(** The five domains with their keyword tables, in the order in which the
    dictionary [domain_scores] is written (and iterated). *)
Definition domain_keywords : list (str * list str) :=
  [ (lit "constitutional", constitutional_keywords);
    (lit "criminal", criminal_keywords);
    (lit "civil", civil_keywords);
    (lit "family", family_keywords);
    (lit "corporate", corporate_keywords) ].

(** [domain_scores.items()] *)
Definition domain_scores (text_lower : str) : list (str * nat) :=
  map (fun '(name, keywords) => (name, keyword_score keywords text_lower))
      domain_keywords.

(** [max(first :: rest, key=key)]: the first item whose key is maximal; a
    later item replaces the best one so far only when its key is strictly
    larger. *)
Definition py_max {A : Type} (key : A -> nat) (first : A) (rest : list A) : A :=
  fold_left (fun best x => if key best <? key x then x else best) rest first.

(** [DocumentProcessor._identify_legal_domain] *)
Definition _identify_legal_domain (text : str) : str :=
  let text_lower := lower text in
  match domain_scores text_lower with
  | [] => lit "general"
  | d :: ds =>
    let max_domain := py_max snd d ds in
    if 0 <? snd max_domain then fst max_domain else lit "general"
  end.

(** [os.path.basename] *)
Definition basename (path : str) : str :=
  fold_left (fun acc c => if Ascii.eqb c "/"%char then [] else acc ++ [c])
            path [].

(** The loop that wraps the text chunks into chunk objects, shared by
    [process_pdf], [process_docx] and [process_text_file]. *)
Definition chunk_objects (file_path doc_type : str) (text_chunks : list str)
  : list Chunk :=
  map (fun '(i, chunk) =>
         {| content := chunk;
            metadata := {| source := basename file_path;
                           type := doc_type;
                           chunk_id := i;
                           total_chunks := length text_chunks;
                           domain := _identify_legal_domain chunk |} |})
      (enumerate text_chunks).

(** [DocumentProcessor.process_text_file]; [file] is what opening and reading
    the file gives: its text, or an exception. *)
Definition process_text_file (p : DocumentProcessor) (file_path : str)
  (file : result str) : list Chunk :=
  match file with
  | Ok full_text =>
    let cleaned_text := _clean_text full_text in
    let text_chunks := _create_chunks p cleaned_text in
    chunk_objects file_path (lit "txt") text_chunks
  | Raise _ => []
  end.


End Ingestion.

(* ================================================================== *)
(** * rag_system/vector_store.py *)
(* ================================================================== *)

Module Rag.

Local Open Scope Q_scope.

(** A metadata value stored with a chunk: a string or an integer. *)
Inductive meta_value : Type :=
| MStr (s : str)
| MInt (z : Z).

(** A Python dictionary with string keys. *)
Definition pydict := list (string * meta_value).

Fixpoint dict_get (d : pydict) (key : string) : option meta_value :=
  match d with
  | [] => None
  | (k, v) :: rest => if String.eqb k key then Some v else dict_get rest key
  end.

(** What [collection.query] returns for a batch of query texts: per query
    text, the documents, their metadata and their distances. *)
Record QueryResult : Type := {
  documents : list (list str);
  metadatas : list (list pydict);
  distances : list (list Q)
}.

(** The vector store holds a ChromaDB collection, of which the code uses
    [query(query_texts, n_results, where)]. *)
Record VectorStore : Type := {
  collection_query : list str -> nat -> option pydict -> result QueryResult
}.

(** [VectorStore.similarity_search]: the exception of the collection is
    logged and raised again. *)
Definition similarity_search (vs : VectorStore) (query : str) (n_results : nat)
  (where_ : option pydict) : result QueryResult :=
  try_except (collection_query vs [query] n_results where_)
             (fun e => Raise e).

(* ================================================================== *)
(** * rag_system/retriever.py *)
(* ================================================================== *)

(** The value under ['similarity_score']: a number, or anything else. *)
Inductive score_value : Type :=
| Num (q : Q)
| NotNum.

(** An entry of [relevant_docs], a dictionary with the keys ['content'],
    ['metadata'], ['similarity_score'] and ['rank']; [None] is an absent
    key. *)
Record Doc : Type := {
  content : option str;
  metadata : option pydict;
  similarity_score : option score_value;
  rank : option nat
}.

Record LegalRetriever : Type := {
  vector_store : VectorStore
}.

(** [l[0]] *)
Definition index0 {A : Type} (l : list A) : result A :=
  match l with
  | [] => Raise IndexError
  | a :: _ => Ok a
  end.

(** [zip(a, b, c)] stops with the shortest of the three. *)
Fixpoint zip3 {A B C : Type} (a : list A) (b : list B) (c : list C)
  : list (A * B * C) :=
  match a, b, c with
  | x :: a', y :: b', z :: c' => (x, y, z) :: zip3 a' b' c'
  | _, _, _ => []
  end.

(** The formatting of the search results, the same text in both methods of
    the retriever: [if results['documents'][0]: for i, (...) in
    enumerate(zip(...)): relevant_docs.append(...)]. *)
Definition format_results (results : QueryResult) : result (list Doc) :=
  docs0 <- index0 (documents results) ;;
  match docs0 with
  | [] => Ok []
  | _ :: _ =>
    metas0 <- index0 (metadatas results) ;;
    dists0 <- index0 (distances results) ;;
    Ok (map (fun '(i, (doc, meta, distance)) =>
               {| content := Some doc;
                  metadata := Some meta;
                  similarity_score := Some (Num (1 - distance));
                  rank := Some (i + 1)%nat |})
            (enumerate (zip3 docs0 metas0 dists0)))
  end.

(** [LegalRetriever.retrieve_relevant_docs] *)
Definition retrieve_relevant_docs (r : LegalRetriever) (query : str)
  (n_docs : nat) : result (list Doc) :=
  try_except
    (results <- similarity_search (vector_store r) query n_docs None ;;
     format_results results)
    (fun _ => Ok []).

(** Lines 53 to 60 of the retriever: the [where] argument built from
    [legal_domain]; [None] and the empty string are false in a condition. *)
Definition where_of_domain (legal_domain : option str) : option pydict :=
  let where_filter : pydict :=
    match legal_domain with
    | Some (c :: d) => [("domain"%string, MStr (c :: d))]
    | Some [] => []
    | None => []
    end in
  match where_filter with
  | [] => None
  | _ :: _ => Some where_filter
  end.

(** [LegalRetriever.filter_by_legal_domain] *)
Definition filter_by_legal_domain (r : LegalRetriever) (query : str)
  (legal_domain : option str) : result (list Doc) :=
  try_except
    (results <- similarity_search (vector_store r) query 10%nat
                                  (where_of_domain legal_domain) ;;
     format_results results)
    (fun _ => Ok []).

(* ================================================================== *)
(** * rag_system/generator.py *)
(* ================================================================== *)

(** [generator] is [None] when loading the model failed in [__init__].
    Otherwise it is the text-generation pipeline: called on the prompt with
    [max_length], it gives [outputs[0]['generated_text']], or raises. *)
Record LegalResponseGenerator : Type := {
  generator : option (str -> nat -> result str)
}.

Record GeneratedAnswer : Type := {
  response : str;
  sources : list pydict;
  confidence : Q
}.

Definition newline : str := [ascii_of_nat 10].

(** [doc[key]] *)
Definition getitem {A : Type} (field : option A) (key : string) : result A :=
  match field with
  | Some v => Ok v
  | None => Raise (KeyError key)
  end.

(** A metadata value inside an f-string. *)
Definition format_value (v : meta_value) : str :=
  match v with
  | MStr s => s
  | MInt z => lit (NilEmpty.string_of_int (Z.to_int z))
  end.

(** [LegalResponseGenerator._create_context] *)
Definition _create_context (relevant_docs : list Doc) : result str :=
  context_parts <-
    mapM (fun doc =>
            content <- getitem (content doc) "content" ;;
            metadata <- getitem (metadata doc) "metadata" ;;
            let content := py_prefix 500 content in
            let source :=
              match dict_get metadata "source" with
              | Some v => format_value v
              | None => lit "Legal Document"
              end in
            Ok (lit "From " ++ source ++ lit ": " ++ content))
         (py_prefix 3 relevant_docs) ;;
  Ok (join (newline ++ newline) context_parts).

(** [LegalResponseGenerator._create_legal_prompt] *)
Definition _create_legal_prompt (query context : str) : str :=
  lit "Based on Indian legal documents and constitution, please answer the following legal question:"
  ++ newline ++ newline
  ++ lit "Query: " ++ query ++ newline ++ newline
  ++ lit "Legal Context:" ++ newline
  ++ context ++ newline ++ newline
  ++ lit "Please provide a clear, accurate response based on Indian law. If the information is insufficient, please mention that additional legal consultation may be required."
  ++ newline ++ newline
  ++ lit "Response:".

Definition model_failure_message : str :=
  lit "Unable to generate response with language model.".

(** [LegalResponseGenerator._generate_with_model], for a loaded pipeline. *)
Definition _generate_with_model (pipeline : str -> nat -> result str)
  (prompt : str) : result str :=
  try_except
    (generated_text <- pipeline prompt (length (words prompt) + 150)%nat ;;
     Ok (strip (replace prompt [] generated_text)))
    (fun _ => Ok model_failure_message).

Definition no_information_message : str :=
  lit "I couldn't find relevant legal information for your query. Please consult with a legal professional for accurate advice.".

Definition rule_based_header : str :=
  lit "Based on available legal documents, here's what I found regarding your query:"
  ++ newline ++ newline.

Definition educational_disclaimer : str :=
  lit "Please note: This information is for educational purposes only. For specific legal advice, consult with a qualified legal professional.".

(** The loop of [_generate_rule_based_response] over [enumerate(docs[:2])]. *)
Fixpoint numbered_items (response : str) (items : list (nat * Doc))
  : result str :=
  match items with
  | [] => Ok response
  | (i, doc) :: rest =>
    content <- getitem (content doc) "content" ;;
    numbered_items
      (response ++ str_of_nat (i + 1) ++ lit ". " ++ py_prefix 300 content
                ++ lit "..." ++ newline ++ newline)
      rest
  end.

(** [LegalResponseGenerator._generate_rule_based_response] *)
Definition _generate_rule_based_response (query : str)
  (relevant_docs : list Doc) : result str :=
  match relevant_docs with
  | [] => Ok no_information_message
  | _ :: _ =>
    response <- numbered_items rule_based_header
                               (enumerate (py_prefix 2 relevant_docs)) ;;
    Ok (response ++ educational_disclaimer)
  end.

(** [doc.get('similarity_score', 0)] *)
Definition score_or_zero (doc : Doc) : score_value :=
  match similarity_score doc with
  | Some v => v
  | None => Num 0
  end.

(** [sum(scores)]: starts from [0] and adds from the left; adding a value
    that is not a number raises [TypeError]. *)
Fixpoint py_sum (acc : Q) (scores : list score_value) : result Q :=
  match scores with
  | [] => Ok acc
  | Num q :: rest => py_sum (acc + q) rest
  | NotNum :: _ => Raise TypeError
  end.

(** [LegalResponseGenerator._calculate_confidence], with exact rationals in
    place of floats: the value is the one of the code up to rounding, for
    scores within the range of the floats. *)
Definition _calculate_confidence (relevant_docs : list Doc) : result Q :=
  match relevant_docs with
  | [] => Ok 0
  | _ :: _ =>
    let scores := map score_or_zero relevant_docs in
    match scores with
    | [] => Ok 0
    | _ :: _ =>
      total <- py_sum 0 scores ;;
      Ok (total / inject_Z (Z.of_nat (length scores)))
    end
  end.

Definition apology_message : str :=
  lit "I apologize, but I'm unable to process your legal query at the moment. Please try again later.".

(** The answer returned from the handler of [generate_legal_response]. *)
Definition degraded_answer : GeneratedAnswer :=
  {| response := apology_message; sources := []; confidence := 0 |}.

(** The branch [if self.generator: ... else: ...]. *)
Definition select_response (g : LegalResponseGenerator) (query prompt : str)
  (relevant_docs : list Doc) : result str :=
  match generator g with
  | Some pipeline => _generate_with_model pipeline prompt
  | None => _generate_rule_based_response query relevant_docs
  end.

(** [[doc['metadata'] for doc in relevant_docs]] *)
Definition collect_sources (relevant_docs : list Doc) : result (list pydict) :=
  mapM (fun doc => getitem (metadata doc) "metadata") relevant_docs.

(** The body of the [try] in [generate_legal_response]. *)
Definition generate_body (g : LegalResponseGenerator) (query : str)
  (relevant_docs : list Doc) : result GeneratedAnswer :=
  context <- _create_context relevant_docs ;;
  let prompt := _create_legal_prompt query context in
  response <- select_response g query prompt relevant_docs ;;
  sources <- collect_sources relevant_docs ;;
  confidence <- _calculate_confidence relevant_docs ;;
  Ok {| response := response; sources := sources; confidence := confidence |}.

(** [LegalResponseGenerator.generate_legal_response] *)
Definition generate_legal_response (g : LegalResponseGenerator) (query : str)
  (relevant_docs : list Doc) : result GeneratedAnswer :=
  try_except (generate_body g query relevant_docs)
             (fun _ => Ok degraded_answer).

End Rag.

(* ================================================================== *)
(** * Vocabulary of the statements *)
(* ================================================================== *)

Module Spec.

Import Ingestion.

(** [m], at position [i] of [l], has the largest key of [l], and every item
    before it has a strictly smaller one. *)
Definition first_max {A : Type} (key : A -> nat) (l : list A) (i : nat) (m : A)
  : Prop :=
  nth_error l i = Some m /\
  forall j x, nth_error l j = Some x ->
              key x <= key m /\ (j < i -> key x < key m).

(** The score in the words of the specification, for comparison with
    [keyword_score]: the number of occurrences of the keywords of a set in
    the text, an occurrence being a position at which a keyword starts. *)
Fixpoint count_occurrences (needle hay : str) : nat :=
  match hay with
  | [] => 0
  | _ :: hay' =>
    (if startswith needle hay then 1 else 0) + count_occurrences needle hay'
  end.

Definition occurrence_count (keywords : list str) (text_lower : str) : nat :=
  list_sum (map (fun keyword => count_occurrences keyword text_lower) keywords).

(** The tag in the words of the specification: the domain with the highest
    non-zero occurrence count, the earlier domain at a tie, and [general]
    when every count is zero. *)
Definition highest_occurrence_domain (text : str) : str :=
  let text_lower := lower text in
  match map (fun '(name, keywords) =>
               (name, occurrence_count keywords text_lower)) domain_keywords
  with
  | [] => lit "general"
  | d :: ds =>
    let best := py_max snd d ds in
    if 0 <? snd best then fst best else lit "general"
  end.

(** A sentence as the loop of [_create_chunks] appends it. *)
Definition dot_space (s : str) : str := s ++ lit ". ".

(** [fresh] is the text of a run of consecutive sentences as the loop lays
    it out after the overlap words: the sentence that did not fit, then each
    following sentence with ". " after it. *)
Definition fresh_run (sentences : list str) (fresh : str) : Prop :=
  exists before s run after,
    sentences = before ++ s :: run ++ after /\
    fresh = s ++ concat (map dot_space run).

(** The same, for a run that reaches the last sentence read so far. *)
Definition open_run (done : list str) (fresh : str) : Prop :=
  exists before s run,
    done = before ++ s :: run /\
    fresh = s ++ concat (map dot_space run).

(** The words carried from the chunk [c1] into the next buffer. *)
Definition seed (p : DocumentProcessor) (c1 : str) : str :=
  join (lit " ") (py_tail (chunk_overlap p) (words c1)).

Definition linked (p : DocumentProcessor) (sentences : list str)
  (c1 c2 : str) : Prop :=
  exists fresh,
    fresh_run sentences fresh /\ c2 = strip (seed p c1 ++ lit " " ++ fresh).

(** The invariant of the loop of [_create_chunks], [done] being the
    sentences read so far. *)
Definition chunker_inv (p : DocumentProcessor) (done : list str)
  (st : list str * str) : Prop :=
  (forall l1 c1 c2 l2, fst st = l1 ++ c1 :: c2 :: l2 -> linked p done c1 c2) /\
  (forall l1 c, fst st = l1 ++ [c] ->
     exists fresh, open_run done fresh /\
                   snd st = seed p c ++ lit " " ++ fresh).

End Spec.

Import Spec.

Module RagSpec.

Import Rag.
Local Open Scope Q_scope.


(** The index answers the unfiltered search with no entry. *)
Definition no_entries (r : LegalRetriever) (query : str) (k : nat) : Prop :=
  exists results others,
    similarity_search (vector_store r) query k None = Ok results /\
    documents results = [] :: others.

(** The numeric similarity score of an entry. *)
Definition score_of (doc : Doc) : Q :=
  match similarity_score doc with
  | Some (Num q) => q
  | _ => 0
  end.

Definition content_of (doc : Doc) : str :=
  match content doc with
  | Some c => c
  | None => []
  end.

Definition metadata_of (doc : Doc) : pydict :=
  match metadata doc with
  | Some m => m
  | None => []
  end.

(** An entry as the retriever builds it: content, metadata and a numeric
    similarity score are present. *)
Definition is_retrieval_result (doc : Doc) : bool :=
  match content doc, metadata doc, similarity_score doc with
  | Some _, Some _, Some (Num _) => true
  | _, _, _ => false
  end.

Definition sum_scores (scores : list Q) : Q := fold_right Qplus 0 scores.

(** The arithmetic mean of a list of scores. *)
Definition mean (scores : list Q) : Q :=
  sum_scores scores / inject_Z (Z.of_nat (length scores)).

(** One numbered item of the rule-based response. *)
Definition numbered_item (item : nat * Doc) : str :=
  str_of_nat (fst item + 1) ++ lit ". " ++ py_prefix 300 (content_of (snd item))
  ++ lit "..." ++ newline ++ newline.

(** The rule-based response for entries that have their content. *)
Definition rule_based_text (relevant_docs : list Doc) : str :=
  match relevant_docs with
  | [] => no_information_message
  | _ :: _ =>
    rule_based_header
    ++ concat (map numbered_item (enumerate (py_prefix 2 relevant_docs)))
    ++ educational_disclaimer
  end.

End RagSpec.

(* ================================================================== *)
(** * Sample stores, generators and entries *)
(* ================================================================== *)

Module Samples.

Import Rag.
Local Open Scope Q_scope.


(** A store with an empty collection: every query gets empty lists. *)
Definition empty_retriever : LegalRetriever :=
  {| vector_store :=
       {| collection_query := fun _ _ _ =>
            Ok {| documents := [[]]; metadatas := [[]]; distances := [[]] |}
       |} |}.

(** The model failed to load. *)
Definition unloaded_generator : LegalResponseGenerator :=
  {| generator := None |}.

(** A loaded model that raises whenever it is called. *)
Definition raising_generator : LegalResponseGenerator :=
  {| generator := Some (fun _ _ => Raise (RuntimeError "out of memory")) |}.

(** A loaded model that returns the prompt followed by one sentence. *)
Definition echo_generator : LegalResponseGenerator :=
  {| generator :=
       Some (fun prompt _ =>
               Ok (prompt
                   ++ lit " Article 21 protects life and personal liberty."))
  |}.

Definition doc_equality : Doc :=
  {| content := Some (lit "Article 14 guarantees equality before law");
     metadata := Some [("source"%string, MStr (lit "Constitution Article 14"))];
     similarity_score := Some (Num (9 # 10));
     rank := Some 1%nat |}.

Definition doc_bail : Doc :=
  {| content := Some (lit "Bail is the rule and jail the exception");
     metadata := Some [("source"%string, MStr (lit "Criminal Procedure"))];
     similarity_score := Some (Num (7 # 10));
     rank := Some 2%nat |}.

(** An entry whose similarity score is not a number. *)
Definition doc_with_text_score : Doc :=
  {| content := Some (lit "Bail is the rule and jail the exception");
     metadata := Some [];
     similarity_score := Some NotNum;
     rank := Some 1%nat |}.

(** A dictionary that lacks the key ['content']. *)
Definition doc_without_content : Doc :=
  {| content := None;
     metadata := Some [];
     similarity_score := Some (Num (1 # 2));
     rank := Some 1%nat |}.

End Samples.

(* ================================================================== *)
(** * Callers, and more vocabulary *)
(* ================================================================== *)

Module Extra.

(** A word has at least one character and no white space. *)
Definition is_word_of_text (w : str) : Prop :=
  w <> [] /\ Forall (fun c => is_space c = false) w.

(** [x] occurs in [t] as a contiguous piece. *)
Definition occurs_in (x t : str) : Prop := exists a b, t = a ++ x ++ b.

(** A chunk that is not empty and has no white space at either end. *)
Definition good_chunk (c : str) : Prop := c <> [] /\ strip c = c.

(** The buffer of the chunker is empty or holds a word. *)
Definition buffer_ok (current_chunk : str) : Prop :=
  current_chunk = [] \/ words current_chunk <> [].

(** The sentence [s] is kept: its stripped form occurs in a chunk already
    closed, or [s] occurs in the buffer. *)
Definition kept (st : list str * str) (s : str) : Prop :=
  (exists c, In c (fst st) /\ occurs_in (strip s) c) \/ occurs_in s (snd st).

(** A character that [_clean_text] can leave in a text: one of the class
    kept by the filter, and no white space but the plain space. *)
Definition clean_char (c : ascii) : Prop :=
  Ingestion.legal_char c = true /\ (is_space c = true -> c = " "%char).

(** A text of ASCII characters, the texts on which the character classes of
    this model ([is_word], [is_space], [is_digit], [lower]) are those of
    Python; Python's classes go on to the letters, digits and white space
    of all of Unicode. *)
Definition is_ascii_text (t : str) : Prop :=
  Forall (fun c => nat_of_ascii c < 128) t.

(** A number far inside the range of Python's floats. *)
Definition moderate (q : Q) : Prop :=
  (- inject_Z 1000000 <= q <= inject_Z 1000000)%Q.


(** A text with a tab, a run of spaces, characters that the filter deletes
    and white space at both ends. *)
Definition tabbed_text : str :=
  lit " Bail   is" ++ ascii_of_nat 9 :: lit "granted #under! Section_437; ".

(** A text of two lines with a character that the filter deletes. *)
Definition two_line_text : str :=
  lit "Bail is the rule." ++ ascii_of_nat 10 :: lit "Jail is the exception!".

(** A processor with small chunks, for examples. *)
Definition small_processor : Ingestion.DocumentProcessor :=
  {| Ingestion.chunk_size := 20; Ingestion.chunk_overlap := 5 |}.

(** The text that [process_pdf] builds from the texts of the pages:
    [full_text += f"\n--- Page {page_num + 1} ---\n{text}"] for every page. *)
Definition pdf_full_text (pages : list str) : str :=
  concat (map (fun '(page_num, text) =>
                 [ascii_of_nat 10] ++ lit "--- Page "
                 ++ str_of_nat (page_num + 1) ++ lit " ---"
                 ++ [ascii_of_nat 10] ++ text)
              (enumerate pages)).

(** [DocumentProcessor.process_pdf]; [reader] is what opening the file and
    extracting the text of its pages gives: the texts, or an exception. *)
Definition process_pdf (p : Ingestion.DocumentProcessor) (file_path : str)
  (reader : result (list str)) : list Ingestion.Chunk :=
  match reader with
  | Ok pages =>
    let cleaned_text := Ingestion._clean_text (pdf_full_text pages) in
    let text_chunks := Ingestion._create_chunks p cleaned_text in
    Ingestion.chunk_objects file_path (lit "pdf") text_chunks
  | Raise _ => []
  end.

(** [DocumentProcessor.process_docx]; [document] is what opening the file
    gives: the texts of its paragraphs, or an exception.  The text is built
    by [full_text += paragraph.text + "\n"]. *)
Definition process_docx (p : Ingestion.DocumentProcessor) (file_path : str)
  (document : result (list str)) : list Ingestion.Chunk :=
  match document with
  | Ok paragraphs =>
    let full_text :=
      concat (map (fun text => text ++ [ascii_of_nat 10]) paragraphs) in
    let cleaned_text := Ingestion._clean_text full_text in
    let text_chunks := Ingestion._create_chunks p cleaned_text in
    Ingestion.chunk_objects file_path (lit "docx") text_chunks
  | Raise _ => []
  end.

(** A text without hyphen. *)
Definition no_hyphen (t : str) : Prop := Forall (fun c => c <> "-"%char) t.

(** A page marker with the digits [ds]. *)
Definition page_marker (ds : str) : str := lit "--- Page " ++ ds ++ lit " ---".

(** A text whose hyphens all belong to page markers. *)
Inductive marked : str -> Prop :=
| marked_plain (x : str) : no_hyphen x -> marked x
| marked_cons (x ds rest : str) :
    no_hyphen x -> ds <> [] -> Forall (fun c => is_digit c = true) ds ->
    marked rest -> marked (x ++ page_marker ds ++ rest).

(** The part of the loop body of [run_cli_mode] in [main.py] that decides
    what is shown for a query (lines 121 to 138): the documents are
    retrieved with the default [n_docs] of 5; an answer is generated only
    when the list is not empty, otherwise the fixed "No relevant legal
    information found" lines are printed ([None] here). *)
Definition cli_answer (r : Rag.LegalRetriever) (g : Rag.LegalResponseGenerator)
  (query : str) : result (option Rag.GeneratedAnswer) :=
  relevant_docs <- Rag.retrieve_relevant_docs r query 5 ;;
  match relevant_docs with
  | _ :: _ =>
    response_data <- Rag.generate_legal_response g query relevant_docs ;;
    Ok (Some response_data)
  | [] => Ok None
  end.

(** The options of the domain select box of the web page ([app.py]). *)
Definition domain_options : list str :=
  map lit ["All"; "Constitutional"; "Criminal"; "Civil"; "Family"; "Corporate"].

Fixpoint str_eqb (a b : str) : bool :=
  match a, b with
  | [], [] => true
  | x :: a', y :: b' => Ascii.eqb x y && str_eqb a' b'
  | _, _ => false
  end.

(** The retrieval step of the web page ([app.py], lines 170 to 176):
    [domain_filter = None if legal_domain == "All" else legal_domain.lower()],
    then the filtered search when [domain_filter] is true and the plain one
    otherwise. *)
Definition app_relevant_docs (r : Rag.LegalRetriever) (query legal_domain : str)
  : result (list Rag.Doc) :=
  let domain_filter :=
    if str_eqb legal_domain (lit "All") then None
    else Some (lower legal_domain) in
  match domain_filter with
  | Some (c :: d) => Rag.filter_by_legal_domain r query (Some (c :: d))
  | Some [] => Rag.retrieve_relevant_docs r query 5
  | None => Rag.retrieve_relevant_docs r query 5
  end.

(** A store whose collection answers every query with one passage of the
    criminal domain. *)
Definition criminal_retriever : Rag.LegalRetriever :=
  {| Rag.vector_store :=
       {| Rag.collection_query := fun _ _ _ =>
            Ok {| Rag.documents :=
                    [[lit "Bail is the rule and jail the exception"]];
                  Rag.metadatas :=
                    [[[("domain"%string, Rag.MStr (lit "criminal"))]]];
                  Rag.distances := [[(2 # 10)%Q]] |} |} |}.

(** An entry without the key ['similarity_score']. *)
Definition doc_unscored : Rag.Doc :=
  {| Rag.content := Some (lit "Article 21 protects life and personal liberty");
     Rag.metadata := Some [("source"%string, Rag.MStr (lit "Constitution"))];
     Rag.similarity_score := None;
     Rag.rank := None |}.

(** A store whose collection answers with two documents but one distance. *)
Definition ragged_retriever : Rag.LegalRetriever :=
  {| Rag.vector_store :=
       {| Rag.collection_query := fun _ _ _ =>
            Ok {| Rag.documents :=
                    [[lit "Article 14 guarantees equality before law";
                      lit "Bail is the rule and jail the exception"]];
                  Rag.metadatas := [[[]; []]];
                  Rag.distances := [[(1 # 10)%Q]] |} |} |}.

(** A store whose collection answers without any list of distances. *)
Definition broken_retriever : Rag.LegalRetriever :=
  {| Rag.vector_store :=
       {| Rag.collection_query := fun _ _ _ =>
            Ok {| Rag.documents := [[lit "Article 14"]];
                  Rag.metadatas := [[[]]];
                  Rag.distances := [] |} |} |}.

End Extra.

Import Extra.

(* ================================================================== *)
(** * Properties of the domain tagging *)
(* ================================================================== *)

Section DomainTagging.

Import Ingestion.

Lemma first_max_snoc {A : Type} (key : A -> nat) (l : list A) i best x :
  first_max key l i best ->
  exists i', first_max key (l ++ [x]) i'
                       (if key best <? key x then x else best).
Proof.
  intros [Hi Hmax].
  assert (Hlt : i < length l) by (apply nth_error_Some; congruence).
  destruct (key best <? key x) eqn:Hcmp.
  - apply Nat.ltb_lt in Hcmp. exists (length l). split.
    + rewrite nth_error_app2, Nat.sub_diag by lia. reflexivity.
    + intros j y Hj. destruct (Nat.lt_ge_cases j (length l)) as [Hjl | Hjl].
      * rewrite nth_error_app1 in Hj by assumption.
        destruct (Hmax j y Hj) as [Hle _]. lia.
      * rewrite nth_error_app2 in Hj by assumption.
        destruct (j - length l) as [| k] eqn:Hk; simpl in Hj.
        -- injection Hj as <-. lia.
        -- destruct k; discriminate.
  - apply Nat.ltb_ge in Hcmp. exists i. split.
    + rewrite nth_error_app1 by assumption. exact Hi.
    + intros j y Hj. destruct (Nat.lt_ge_cases j (length l)) as [Hjl | Hjl].
      * rewrite nth_error_app1 in Hj by assumption. apply Hmax, Hj.
      * rewrite nth_error_app2 in Hj by assumption.
        destruct (j - length l) as [| k] eqn:Hk; simpl in Hj.
        -- injection Hj as <-. lia.
        -- destruct k; discriminate.
Qed.

Lemma fold_max_inv {A : Type} (key : A -> nat) (rest : list A) :
  forall pre best i,
    first_max key pre i best ->
    exists i', first_max key (pre ++ rest) i'
      (fold_left (fun best x => if key best <? key x then x else best)
                 rest best).
Proof.
  induction rest as [| x rest IH]; intros pre best i H.
  - rewrite app_nil_r. exists i. exact H.
  - simpl. destruct (first_max_snoc key pre i best x H) as [i' H'].
    destruct (IH _ _ _ H') as [i'' H''].
    exists i''. rewrite <- app_assoc in H''. exact H''.
Qed.

Lemma py_max_first_max {A : Type} (key : A -> nat) (first : A) (rest : list A) :
  exists i, first_max key (first :: rest) i (py_max key first rest).
Proof.
  apply (fold_max_inv key rest [first] first 0).
  split; [reflexivity |].
  intros [| [| j]] x Hj; simpl in Hj; try discriminate.
  injection Hj as <-. lia.
Qed.

Lemma domain_scores_names (text_lower : str) :
  map fst (domain_scores text_lower) =
  [lit "constitutional"; lit "criminal"; lit "civil"; lit "family";
   lit "corporate"].
Proof. reflexivity. Qed.

Lemma domain_name_not_general (text_lower : str) (d : str * nat) :
  In d (domain_scores text_lower) -> fst d <> lit "general".
Proof.
  intros Hin. apply (in_map fst) in Hin. rewrite domain_scores_names in Hin.
  simpl in Hin.
  destruct Hin as [<- | [<- | [<- | [<- | [<- | []]]]]]; discriminate.
Qed.

(** C1 (as amended).  The score of a domain is the number of its keywords
    that occur in the lower-cased text, each keyword counted once.  The five
    scores are listed in the order constitutional, criminal, civil, family,
    corporate.  The tag is [general] exactly when every score is zero;
    otherwise it is the name of the first domain in that order whose score
    is the largest one, and that score is positive.  The tag depends on the
    text only through its lower-cased form, so texts that differ in letter
    case get the same tag, and the same text always gets the same tag. *)
Theorem identify_legal_domain_first_highest_score (text : str) :
  let scores := domain_scores (lower text) in
  let tag := _identify_legal_domain text in
  scores =
    [ (lit "constitutional", keyword_score constitutional_keywords (lower text));
      (lit "criminal", keyword_score criminal_keywords (lower text));
      (lit "civil", keyword_score civil_keywords (lower text));
      (lit "family", keyword_score family_keywords (lower text));
      (lit "corporate", keyword_score corporate_keywords (lower text)) ] /\
  (tag = lit "general" <-> Forall (fun d => snd d = 0) scores) /\
  (tag = lit "general" \/
   exists i n,
     nth_error scores i = Some (tag, n) /\ 0 < n /\
     forall j name' n', nth_error scores j = Some (name', n') ->
                        n' <= n /\ (j < i -> n' < n)) /\
  (forall text', lower text' = lower text ->
                 _identify_legal_domain text' = tag).
Proof.
  intros scores tag.
  split; [reflexivity |].
  assert (Hshape : exists d ds, scores = d :: ds)
    by (eexists; eexists; reflexivity).
  destruct Hshape as (d & ds & Hscores).
  assert (Htag : tag = if 0 <? snd (py_max snd d ds)
                       then fst (py_max snd d ds) else lit "general").
  { unfold tag, _identify_legal_domain. fold scores. rewrite Hscores.
    reflexivity. }
  destruct (py_max_first_max snd d ds) as (i & Hi & Hmax).
  rewrite <- Hscores in Hi, Hmax.
  set (m := py_max snd d ds) in *.
  assert (Hin : In m scores) by (eapply nth_error_In; exact Hi).
  split; [| split].
  - rewrite Htag. destruct (0 <? snd m) eqn:Hpos.
    + apply Nat.ltb_lt in Hpos. split.
      * intros Heq. exfalso.
        exact (domain_name_not_general (lower text) m Hin Heq).
      * intros Hall. rewrite Forall_forall in Hall.
        specialize (Hall m Hin). simpl in Hall. lia.
    + apply Nat.ltb_ge in Hpos. split; [| reflexivity].
      intros _. apply Forall_forall. intros x Hx.
      destruct (In_nth_error _ _ Hx) as [j Hj].
      destruct (Hmax j x Hj) as [Hle _]. lia.
  - rewrite Htag. destruct (0 <? snd m) eqn:Hpos; [right | left; reflexivity].
    apply Nat.ltb_lt in Hpos.
    exists i, (snd m). split; [| split].
    + rewrite Hi. destruct m; reflexivity.
    + exact Hpos.
    + intros j name' n' Hj. exact (Hmax j (name', n') Hj).
  - intros text' Hlow. unfold tag, _identify_legal_domain.
    rewrite Hlow. reflexivity.
Qed.

(** A text with criminal-law keywords only is tagged [criminal], one with no
    keyword at all [general], and the keywords are found whatever their
    letter case. *)
Example tag_criminal_only :
  _identify_legal_domain (lit "Bail was refused after the ARREST") =
  lit "criminal".
Proof. vm_compute. reflexivity. Qed.

Example tag_no_keyword :
  _identify_legal_domain (lit "The weather is fine today") = lit "general".
Proof. vm_compute. reflexivity. Qed.

(** C1, counterexample.  In the text "bail bail article" the criminal
    keywords occur twice and the constitutional keywords once, so the domain
    with the highest occurrence count is [criminal]; the code counts each
    keyword once, finds a tie of one against one and answers
    [constitutional]. *)
Lemma identify_legal_domain_ignores_repeats :
  let text := lit "bail bail article" in
  occurrence_count criminal_keywords (lower text) = 2 /\
  occurrence_count constitutional_keywords (lower text) = 1 /\
  highest_occurrence_domain text = lit "criminal" /\
  _identify_legal_domain text = lit "constitutional" /\
  _identify_legal_domain text <> highest_occurrence_domain text.
Proof.
  vm_compute. repeat split; try reflexivity. discriminate.
Qed.

End DomainTagging.

(* ================================================================== *)
(** * Properties of the string functions *)
(* ================================================================== *)

Section StringFacts.

Lemma startswith_skipn (p t : str) :
  startswith p t = true -> t = p ++ skipn (length p) t.
Proof.
  revert t. induction p as [| a p IH]; intros t H; [reflexivity |].
  destruct t as [| b t]; simpl in H; [discriminate |].
  apply andb_true_iff in H. destruct H as [Hab Hrest].
  apply Ascii.eqb_eq in Hab. subst b. simpl. f_equal. apply IH, Hrest.
Qed.

Lemma split_fuel_not_nil (fuel : nat) (sep t : str) :
  split_fuel fuel sep t <> [].
Proof.
  destruct fuel as [| f]; simpl; [discriminate |].
  destruct t as [| c rest]; [discriminate |].
  destruct (startswith sep (c :: rest)); [discriminate |].
  destruct (split_fuel f sep rest); discriminate.
Qed.

Lemma concat_cons_head (sep : str) (c : ascii) (l : list str) :
  l <> [] ->
  concat (map (fun s => s ++ sep) (cons_head c l)) =
  c :: concat (map (fun s => s ++ sep) l).
Proof. destruct l as [| x l]; [congruence | reflexivity]. Qed.

(** Putting the separator back after every piece of [split] gives the text
    followed by one separator. *)
Lemma split_fuel_concat (sep : str) :
  sep <> [] ->
  forall fuel t, length t <= fuel ->
    concat (map (fun s => s ++ sep) (split_fuel fuel sep t)) = t ++ sep.
Proof.
  intros Hsep. induction fuel as [| f IH]; intros t Hlen.
  - destruct t; [| simpl in Hlen; lia]. simpl. apply app_nil_r.
  - destruct t as [| c rest]; [simpl; apply app_nil_r |].
    cbn [split_fuel]. destruct (startswith sep (c :: rest)) eqn:Hsw.
    + pose proof (startswith_skipn _ _ Hsw) as Heq.
      cbn [map concat app]. rewrite IH.
      * rewrite app_assoc, <- Heq. reflexivity.
      * rewrite length_skipn. simpl in Hlen.
        destruct sep; [congruence | simpl; lia].
    + rewrite concat_cons_head by apply split_fuel_not_nil.
      rewrite IH by (simpl in Hlen; lia). reflexivity.
Qed.

Lemma split_concat (sep t : str) :
  sep <> [] -> concat (map (fun s => s ++ sep) (split sep t)) = t ++ sep.
Proof. intros Hsep. apply split_fuel_concat; [assumption | apply Nat.le_refl]. Qed.

Lemma lstrip_decomp (t : str) :
  exists ws, t = ws ++ lstrip t /\ forallb is_space ws = true.
Proof.
  induction t as [| c t (ws & Heq & Hws)]; [exists []; split; reflexivity |].
  simpl. destruct (is_space c) eqn:Hc.
  - exists (c :: ws). simpl. rewrite Hc, Hws. split; [f_equal; exact Heq | reflexivity].
  - exists []. split; reflexivity.
Qed.

Lemma lstrip_head (t : str) :
  lstrip t = [] \/ exists c r, lstrip t = c :: r /\ is_space c = false.
Proof.
  induction t as [| c t IH]; [left; reflexivity |].
  simpl. destruct (is_space c) eqn:Hc; [exact IH |].
  right. exists c, t. split; [reflexivity | exact Hc].
Qed.

Lemma lstrip_fixed (t : str) :
  (t = [] \/ exists c r, t = c :: r /\ is_space c = false) -> lstrip t = t.
Proof.
  intros [-> | (c & r & -> & Hc)]; [reflexivity |].
  simpl. rewrite Hc. reflexivity.
Qed.

Lemma rstrip_decomp (t : str) :
  exists ws, t = rstrip t ++ ws /\ forallb is_space ws = true.
Proof.
  destruct (lstrip_decomp (rev t)) as (ws & Heq & Hws).
  exists (rev ws). split.
  - unfold rstrip. rewrite <- rev_app_distr, <- Heq, rev_involutive.
    reflexivity.
  - rewrite forallb_forall in *. intros x Hx. apply Hws, in_rev, Hx.
Qed.

(** A stripped text is empty or starts with a character that is not white
    space. *)
Lemma strip_head (t : str) :
  strip t = [] \/ exists c r, strip t = c :: r /\ is_space c = false.
Proof.
  unfold strip.
  destruct (lstrip_head t) as [-> | (c & r & -> & Hc)]; [left; reflexivity |].
  destruct (rstrip_decomp (c :: r)) as (ws & Heq & Hws).
  destruct (rstrip (c :: r)) as [| c' r'] eqn:Hr.
  - simpl in Heq. subst ws. simpl in Hws. rewrite Hc in Hws. discriminate.
  - right. exists c', r'. simpl in Heq. injection Heq as -> _.
    split; [reflexivity | exact Hc].
Qed.

Lemma rstrip_dot_space (t : str) :
  rstrip (t ++ lit ". ") = t ++ lit ".".
Proof.
  unfold rstrip. rewrite rev_app_distr. simpl.
  rewrite rev_involutive. reflexivity.
Qed.

(** Stripping a stripped text to which ". " was added removes the space and
    leaves the full stop. *)
Lemma strip_dot_space (t : str) :
  strip (strip t ++ lit ". ") = strip t ++ lit ".".
Proof.
  unfold strip at 1. rewrite lstrip_fixed; [apply rstrip_dot_space |].
  destruct (strip_head t) as [-> | (c & r & -> & Hc)].
  - right. exists "."%char, [" "%char]. split; reflexivity.
  - right. exists c, (r ++ lit ". "). split; [reflexivity | exact Hc].
Qed.

Lemma words_lstrip (t : str) : words (lstrip t) = words t.
Proof.
  induction t as [| c t IH]; [reflexivity |].
  cbn [lstrip]. destruct (is_space c) eqn:Hc; [| reflexivity].
  rewrite IH. cbn [words]. rewrite Hc. reflexivity.
Qed.

Lemma words_spaces (ws : str) : forallb is_space ws = true -> words ws = [].
Proof.
  induction ws as [| c ws IH]; [reflexivity |].
  simpl. intros H. apply andb_true_iff in H. destruct H as [Hc Hws].
  rewrite Hc. apply IH, Hws.
Qed.

Lemma words_app_spaces (t ws : str) :
  forallb is_space ws = true -> words (t ++ ws) = words t.
Proof.
  intros Hws. induction t as [| c t IH]; [apply words_spaces, Hws |].
  cbn [app words]. destruct (is_space c); [exact IH |].
  destruct t as [| d t'].
  - cbn [app] in *. destruct ws as [| w ws']; [reflexivity |].
    pose proof Hws as Hw. cbn [forallb] in Hw. apply andb_true_iff in Hw.
    destruct Hw as [Hw _]. rewrite Hw, IH. reflexivity.
  - cbn [app] in *. rewrite IH. reflexivity.
Qed.

(** [strip] does not change the words of a text. *)
Lemma words_strip (t : str) : words (strip t) = words t.
Proof.
  unfold strip. rewrite <- (words_lstrip t).
  destruct (rstrip_decomp (lstrip t)) as (ws & Heq & Hws).
  rewrite Heq at 2. symmetry. apply words_app_spaces, Hws.
Qed.

Lemma py_tail_length {A : Type} (n : nat) (l : list A) :
  0 < n -> length (py_tail n l) <= n.
Proof.
  intros Hn. unfold py_tail. destruct (Nat.eqb_spec n 0) as [-> | _]; [lia |].
  rewrite length_skipn. lia.
Qed.

Lemma py_tail_suffix {A : Type} (n : nat) (l : list A) :
  exists before, l = before ++ py_tail n l.
Proof.
  unfold py_tail. destruct (n =? 0).
  - exists []. reflexivity.
  - exists (firstn (length l - n) l). symmetry. apply firstn_skipn.
Qed.

End StringFacts.

(* ================================================================== *)
(** * Properties of the chunker *)
(* ================================================================== *)

Section Chunker.

Import Ingestion.

Variable p : DocumentProcessor.

(** While the whole remaining text fits, the loop only appends. *)
Lemma fold_no_overflow (sentences : list str) :
  forall current_chunk,
    length (current_chunk ++ concat (map dot_space sentences))
      <= chunk_size p + 2 ->
    fold_left (chunk_step p) sentences ([], current_chunk) =
    ([], current_chunk ++ concat (map dot_space sentences)).
Proof.
  induction sentences as [| s rest IH]; intros cur Hlen.
  - simpl. rewrite app_nil_r. reflexivity.
  - cbn [fold_left map concat] in *. unfold dot_space at 1 in Hlen.
    unfold dot_space at 1.
    assert (Hfit : (chunk_size p <? length (cur ++ s)) = false).
    { apply Nat.ltb_ge. repeat rewrite length_app in Hlen.
      rewrite length_app. simpl in Hlen. lia. }
    unfold chunk_step at 2. rewrite Hfit. cbn [andb].
    repeat rewrite <- app_assoc in Hlen.
    rewrite IH; repeat rewrite <- app_assoc; [reflexivity | exact Hlen].
Qed.

(** What the chunker does with a cleaned text that fits in one chunk: one
    chunk, the text followed by a full stop. *)
Lemma short_text_single_chunk (text : str) :
  length (_clean_text text) <= chunk_size p ->
  _create_chunks p (_clean_text text) = [_clean_text text ++ lit "."].
Proof.
  intros Hlen. unfold _create_chunks.
  assert (Hsep : lit ". " <> []) by discriminate.
  assert (Hcat : concat (map dot_space (split (lit ". ") (_clean_text text)))
                 = _clean_text text ++ lit ". ")
    by exact (split_concat (lit ". ") (_clean_text text) Hsep).
  rewrite fold_no_overflow.
  - cbn [app]. rewrite Hcat. unfold flush, _clean_text.
    rewrite strip_dot_space.
    destruct (strip _); reflexivity.
  - cbn [app]. rewrite Hcat, length_app. simpl. lia.
Qed.

Lemma open_run_fresh (done : list str) (fresh : str) :
  open_run done fresh -> fresh_run done fresh.
Proof.
  intros (before & s & run & -> & ->).
  exists before, s, run, []. rewrite app_nil_r. split; reflexivity.
Qed.

Lemma fresh_run_more (done more : list str) (fresh : str) :
  fresh_run done fresh -> fresh_run (done ++ more) fresh.
Proof.
  intros (before & s & run & after & -> & ->).
  exists before, s, run, (after ++ more). split; [| reflexivity].
  repeat (rewrite <- app_assoc; cbn [app]). reflexivity.
Qed.

Lemma linked_more (done more : list str) (c1 c2 : str) :
  linked p done c1 c2 -> linked p (done ++ more) c1 c2.
Proof.
  intros (fresh & Hrun & ->). exists fresh.
  split; [apply fresh_run_more, Hrun | reflexivity].
Qed.

(** The pairs of neighbours of a list of chunks that got one more chunk. *)
Lemma neighbours_snoc (chunks : list str) (c : str) l1 c1 c2 l2 :
  chunks ++ [c] = l1 ++ c1 :: c2 :: l2 ->
  (chunks = l1 ++ [c1] /\ c2 = c /\ l2 = []) \/
  (exists l2', chunks = l1 ++ c1 :: c2 :: l2').
Proof.
  intros Heq. destruct (exists_last (l := c2 :: l2)) as (l2' & y & Hl2);
    [discriminate |].
  rewrite Hl2 in Heq.
  change (l1 ++ c1 :: l2' ++ [y]) with (l1 ++ (c1 :: l2') ++ [y]) in Heq.
  rewrite app_assoc in Heq. apply app_inj_tail in Heq.
  destruct Heq as [Hchunks <-].
  destruct l2' as [| z l2'].
  - left. simpl in Hl2. injection Hl2 as -> ->. auto.
  - right. simpl in Hl2. injection Hl2 as <- _. exists l2'. exact Hchunks.
Qed.

Lemma closing_keeps_links (done : list str) (chunks : list str) (cur : str) :
  chunker_inv p done (chunks, cur) ->
  forall l1 c1 c2 l2,
    chunks ++ [strip cur] = l1 ++ c1 :: c2 :: l2 -> linked p done c1 c2.
Proof.
  intros [Hpairs Hlast] l1 c1 c2 l2 Heq.
  destruct (neighbours_snoc _ _ _ _ _ _ Heq) as [(Hc & -> & _) | (l2' & Hc)].
  - destruct (Hlast l1 c1 Hc) as (fresh & Hrun & Hcur). simpl in Hcur.
    exists fresh. split; [apply open_run_fresh, Hrun | rewrite Hcur; reflexivity].
  - exact (Hpairs l1 c1 c2 l2' Hc).
Qed.

Lemma chunk_step_inv (done : list str) (st : list str * str) (s : str) :
  chunker_inv p done st -> chunker_inv p (done ++ [s]) (chunk_step p st s).
Proof.
  destruct st as [chunks cur]. intros Hinv.
  unfold chunk_step.
  destruct ((chunk_size p <? length (cur ++ s)) && truthy cur).
  - split; cbn [fst snd].
    + intros l1 c1 c2 l2 Heq. apply linked_more.
      exact (closing_keeps_links done chunks cur Hinv l1 c1 c2 l2 Heq).
    + intros l1 c Heq. apply app_inj_tail in Heq. destruct Heq as [_ <-].
      exists s. split.
      * exists done, s, []. split; [reflexivity | simpl; rewrite app_nil_r; reflexivity].
      * unfold seed. rewrite words_strip. reflexivity.
  - destruct Hinv as [Hpairs Hlast]. split; cbn [fst snd] in *.
    + intros l1 c1 c2 l2 Heq. apply linked_more. exact (Hpairs l1 c1 c2 l2 Heq).
    + intros l1 c Heq.
      destruct (Hlast l1 c Heq) as (fresh & (before & s0 & run & -> & ->) & ->).
      exists ((s0 ++ concat (map dot_space run)) ++ s ++ lit ". "). split.
      * exists before, s0, (run ++ [s]). split.
        -- rewrite <- app_assoc. reflexivity.
        -- rewrite map_app, concat_app. cbn [map concat].
           unfold dot_space at 3. rewrite app_nil_r.
           repeat rewrite <- app_assoc. reflexivity.
      * repeat rewrite <- app_assoc. reflexivity.
Qed.

Lemma fold_chunk_step_inv (rest : list str) :
  forall done st,
    chunker_inv p done st ->
    chunker_inv p (done ++ rest) (fold_left (chunk_step p) rest st).
Proof.
  induction rest as [| s rest IH]; intros done st Hinv.
  - rewrite app_nil_r. exact Hinv.
  - cbn [fold_left].
    replace (done ++ s :: rest) with ((done ++ [s]) ++ rest)
      by (rewrite <- app_assoc; reflexivity).
    apply IH, chunk_step_inv, Hinv.
Qed.

(** Every two neighbouring chunks of the chunker are linked. *)
Lemma create_chunks_linked (sentences : list str) l1 c1 c2 l2 :
  flush (fold_left (chunk_step p) sentences ([], [])) = l1 ++ c1 :: c2 :: l2 ->
  linked p sentences c1 c2.
Proof.
  assert (Hinv : chunker_inv p ([] ++ sentences)
                   (fold_left (chunk_step p) sentences ([], []))).
  { apply fold_chunk_step_inv. split; cbn [fst].
    - intros [| ? ?] ? ? ? H; discriminate.
    - intros [| ? [| ? ?]] ? H; discriminate. }
  cbn [app] in Hinv.
  destruct (fold_left (chunk_step p) sentences ([], [])) as [chunks cur].
  unfold flush. destruct (truthy (strip cur)).
  - apply (closing_keeps_links sentences chunks cur Hinv).
  - destruct Hinv as [Hpairs _]. apply Hpairs.
Qed.

Lemma map_enumerate_snd {A B : Type} (f : nat * A -> B) (g : B -> A) :
  (forall i a, g (f (i, a)) = a) ->
  forall l start, map g (map f (combine (seq start (length l)) l)) = l.
Proof.
  intros Hg. induction l as [| a l IH]; intros start; [reflexivity |].
  simpl. rewrite Hg, IH. reflexivity.
Qed.

Lemma map_enumerate_fst {A B : Type} (f : nat * A -> B) (g : B -> nat) :
  (forall i a, g (f (i, a)) = i) ->
  forall l start,
    map g (map f (combine (seq start (length l)) l)) = seq start (length l).
Proof.
  intros Hg. induction l as [| a l IH]; intros start; [reflexivity |].
  simpl. rewrite Hg, IH. reflexivity.
Qed.

Lemma chunk_objects_content (file_path doc_type : str) (text_chunks : list str) :
  map content (chunk_objects file_path doc_type text_chunks) = text_chunks.
Proof.
  unfold chunk_objects, enumerate. apply map_enumerate_snd. reflexivity.
Qed.

Lemma chunk_objects_ids (file_path doc_type : str) (text_chunks : list str) :
  map (fun c => chunk_id (metadata c))
      (chunk_objects file_path doc_type text_chunks) =
  seq 0 (length text_chunks).
Proof.
  unfold chunk_objects, enumerate.
  apply (map_enumerate_fst _ (fun c => chunk_id (metadata c))). reflexivity.
Qed.

Lemma chunk_objects_total (file_path doc_type : str) (text_chunks : list str) :
  Forall (fun c => total_chunks (metadata c) = length text_chunks)
         (chunk_objects file_path doc_type text_chunks).
Proof.
  unfold chunk_objects. apply Forall_forall. intros c Hin.
  apply in_map_iff in Hin. destruct Hin as ([i chunk] & <- & _). reflexivity.
Qed.

Lemma chunk_objects_length (file_path doc_type : str) (text_chunks : list str) :
  length (chunk_objects file_path doc_type text_chunks) = length text_chunks.
Proof.
  rewrite <- (chunk_objects_content file_path doc_type text_chunks) at 2.
  symmetry. apply length_map.
Qed.

End Chunker.

Section ChunkerTheorems.

Import Ingestion.

(** C2, at the input "Hello world".  The cleaned text is "Hello world", far
    shorter than the chunk size, and the chunker returns exactly one chunk;
    but the chunk is "Hello world." with a full stop added, not the cleaned
    text.  The loop appends ". " after every sentence, the last one too, and
    the final [strip] removes only the space.  [short_text_single_chunk]
    shows the same for every text that fits in one chunk. *)
Theorem short_text_chunk_gets_full_stop :
  let full_text := lit "Hello world" in
  let cleaned := _clean_text full_text in
  cleaned = lit "Hello world" /\
  length cleaned < chunk_size new_processor /\
  _create_chunks new_processor cleaned = [lit "Hello world."] /\
  _create_chunks new_processor cleaned <> [cleaned] /\
  map content (process_text_file new_processor (lit "note.txt") (Ok full_text))
  = [lit "Hello world."].
Proof.
  vm_compute. repeat split; try reflexivity.
  - repeat constructor.
  - discriminate.
Qed.

(** A text that already ends with a full stop gets a second one, and the
    empty text gives one chunk that holds a full stop. *)
Example short_text_double_full_stop :
  _create_chunks new_processor (_clean_text (lit "Bail is a right.")) =
  [lit "Bail is a right.."] /\
  _create_chunks new_processor (_clean_text (lit "")) = [lit "."].
Proof. vm_compute. split; reflexivity. Qed.

(** C3.  For a processor with a positive overlap and the chunks made from
    the text of a file: (1) for every two consecutive chunks, the later one
    is, up to [strip], the overlap words joined by spaces, a space, and then
    fresh text, where the overlap words are the last [chunk_overlap] words of
    the earlier chunk (all of them when it has fewer), so at most
    [chunk_overlap] words, and the fresh text is a run of consecutive
    sentences of the cleaned text; (2) the [chunk_id] values are
    0, 1, ..., N-1 in the order of the chunks; (3) [total_chunks] is N on
    every chunk. *)
Theorem consecutive_chunks_overlap_and_ids
  (p : DocumentProcessor) (file_path full_text : str) :
  0 < chunk_overlap p ->
  let sentences := split (lit ". ") (_clean_text full_text) in
  let chunks := process_text_file p file_path (Ok full_text) in
  (forall before c1 c2 after,
      chunks = before ++ c1 :: c2 :: after ->
      let overlap_words := py_tail (chunk_overlap p) (words (content c1)) in
      length overlap_words <= chunk_overlap p /\
      (exists earlier, words (content c1) = earlier ++ overlap_words) /\
      (exists fresh,
          fresh_run sentences fresh /\
          content c2 =
          strip (join (lit " ") overlap_words ++ lit " " ++ fresh))) /\
  map (fun c => chunk_id (metadata c)) chunks = seq 0 (length chunks) /\
  Forall (fun c => total_chunks (metadata c) = length chunks) chunks.
Proof.
  intros Hpos sentences chunks. unfold chunks, process_text_file.
  set (text_chunks := _create_chunks p (_clean_text full_text)).
  split; [| split].
  - intros before c1 c2 after Heq. cbv zeta.
    split; [apply py_tail_length, Hpos |].
    split; [apply py_tail_suffix |].
    apply (f_equal (map content)) in Heq.
    rewrite chunk_objects_content, map_app in Heq. cbn [map] in Heq.
    exact (create_chunks_linked p sentences _ _ _ _ Heq).
  - rewrite chunk_objects_length. apply chunk_objects_ids.
  - rewrite chunk_objects_length. apply chunk_objects_total.
Qed.

(** The theorem at a text of two sentences of 600 letters each, which the
    default processor splits in two chunks. *)
Lemma consecutive_chunks_overlap_and_ids_witness :
  let full_text :=
    repeat "a"%char 600 ++ lit ". " ++ repeat "b"%char 600 in
  let chunks :=
    process_text_file new_processor (lit "acts.txt") (Ok full_text) in
  0 < chunk_overlap new_processor /\
  length chunks = 2 /\
  map (fun c => chunk_id (metadata c)) chunks = seq 0 (length chunks) /\
  (forall c1 c2, chunks = [c1; c2] ->
     length (py_tail (chunk_overlap new_processor) (words (content c1)))
       <= chunk_overlap new_processor).
Proof.
  intros full_text chunks.
  assert (Hpos : 0 < chunk_overlap new_processor)
    by (unfold new_processor, Config.CHUNK_OVERLAP; simpl; lia).
  split; [exact Hpos |].
  split; [vm_compute; reflexivity |].
  destruct (consecutive_chunks_overlap_and_ids
              new_processor (lit "acts.txt") full_text Hpos)
    as (Hpairs & Hids & _).
  split; [exact Hids |].
  intros c1 c2 Heq.
  destruct (Hpairs [] c1 c2 [] Heq) as (Hlen & _). exact Hlen.
Defined.

End ChunkerTheorems.

(* ================================================================== *)
(** * Properties of the retriever *)
(* ================================================================== *)

Section Retrieval.

Import Rag RagSpec Samples.
Local Open Scope Q_scope.


Lemma zip3_nth {A B C : Type} (a : list A) (b : list B) (c : list C) :
  forall i x y z,
    nth_error (zip3 a b c) i = Some (x, y, z) ->
    nth_error a i = Some x /\ nth_error b i = Some y /\ nth_error c i = Some z.
Proof.
  revert b c. induction a as [| x0 a IH]; intros [| y0 b] [| z0 c] i x y z H;
    try (destruct i; discriminate).
  destruct i as [| i]; simpl in *.
  - injection H as <- <- <-. auto.
  - apply IH, H.
Qed.






(** C8.  [retrieve_relevant_docs] never raises, and it returns the empty
    list when the index answers with no entry; it also returns the empty
    list when the search itself raises. *)
Theorem retrieve_empty_when_no_entries
  (r : LegalRetriever) (query : str) (k : nat) :
  (exists out, retrieve_relevant_docs r query k = Ok out) /\
  (no_entries r query k -> retrieve_relevant_docs r query k = Ok []) /\
  (forall e, similarity_search (vector_store r) query k None = Raise e ->
             retrieve_relevant_docs r query k = Ok []).
Proof.
  unfold retrieve_relevant_docs.
  split; [| split].
  - destruct (similarity_search (vector_store r) query k None) as [res | e];
      cbn [bind try_except]; [| eexists; reflexivity].
    destruct (format_results res); cbn [try_except]; eexists; reflexivity.
  - intros (results & others & -> & Hdocs). cbn [bind].
    unfold format_results. rewrite Hdocs. reflexivity.
  - intros e ->. reflexivity.
Qed.

Lemma retrieve_empty_when_no_entries_witness :
  no_entries empty_retriever (lit "What is bail?") 5 /\
  retrieve_relevant_docs empty_retriever (lit "What is bail?") 5 = Ok [].
Proof.
  assert (H : no_entries empty_retriever (lit "What is bail?") 5).
  { eexists _, []. split; reflexivity. }
  split; [exact H |].
  exact (proj1 (proj2 (retrieve_empty_when_no_entries
                         empty_retriever (lit "What is bail?") 5)) H).
Defined.

(** C10.  For the domain [None] and for the empty string the [where]
    argument of the search is [None], no filter, and
    [filter_by_legal_domain] is the same computation as
    [retrieve_relevant_docs] with 10 results: the same search is issued and
    its answer is formatted in the same way. *)
Theorem filter_without_domain_is_unfiltered (r : LegalRetriever) (query : str) :
  where_of_domain None = None /\
  where_of_domain (Some []) = None /\
  filter_by_legal_domain r query None = retrieve_relevant_docs r query 10 /\
  filter_by_legal_domain r query (Some []) = retrieve_relevant_docs r query 10.
Proof. repeat split; reflexivity. Qed.

(** With a domain that is not empty the search is filtered on it. *)
Example filter_with_domain :
  where_of_domain (Some (lit "criminal")) =
  Some [("domain"%string, MStr (lit "criminal"))].
Proof. reflexivity. Qed.

End Retrieval.

(* ================================================================== *)
(** * Properties of the response generator *)
(* ================================================================== *)

Section Generation.

Import Rag RagSpec.
Local Open Scope Q_scope.

Lemma retrieval_result_fields (doc : Doc) :
  is_retrieval_result doc = true ->
  content doc = Some (content_of doc) /\
  metadata doc = Some (metadata_of doc) /\
  similarity_score doc = Some (Num (score_of doc)).
Proof.
  unfold is_retrieval_result, content_of, metadata_of, score_of.
  destruct (content doc), (metadata doc), (similarity_score doc) as [[q |] |];
    intros H; try discriminate. auto.
Qed.

Lemma mapM_ok {A B : Type} (f : A -> result B) (g : A -> B) (l : list A) :
  Forall (fun a => f a = Ok (g a)) l -> mapM f l = Ok (map g l).
Proof.
  induction 1 as [| a l Ha _ IH]; [reflexivity |].
  simpl. rewrite Ha. cbn [bind]. rewrite IH. reflexivity.
Qed.

Lemma Forall_prefix {A : Type} (P : A -> Prop) (n : nat) (l : list A) :
  Forall P l -> Forall P (py_prefix n l).
Proof.
  intros H. unfold py_prefix. rewrite <- (firstn_skipn n l) in H.
  apply Forall_app in H. tauto.
Qed.

Lemma create_context_ok (relevant_docs : list Doc) :
  Forall (fun doc => is_retrieval_result doc = true) relevant_docs ->
  exists context, _create_context relevant_docs = Ok context.
Proof.
  intros Hwf. unfold _create_context.
  erewrite mapM_ok; [eexists; reflexivity |].
  apply Forall_prefix with (n := 3%nat) in Hwf.
  eapply Forall_impl; [| exact Hwf].
  intros doc Hdoc. destruct (retrieval_result_fields doc Hdoc) as (-> & -> & _).
  reflexivity.
Qed.

Lemma numbered_items_ok (items : list (nat * Doc)) :
  Forall (fun item => is_retrieval_result (snd item) = true) items ->
  forall acc,
    numbered_items acc items = Ok (acc ++ concat (map numbered_item items)).
Proof.
  induction 1 as [| [i doc] items Hdoc _ IH]; intros acc.
  - simpl. rewrite app_nil_r. reflexivity.
  - cbn [numbered_items]. simpl in Hdoc.
    destruct (retrieval_result_fields doc Hdoc) as (Hc & _).
    rewrite Hc. cbn [getitem bind]. rewrite IH.
    cbn [map concat]. unfold numbered_item at 2. cbn [fst snd].
    repeat rewrite <- app_assoc. reflexivity.
Qed.

Lemma Forall_enumerate {A : Type} (P : A -> Prop) (l : list A) :
  Forall P l -> Forall (fun item => P (snd item)) (enumerate l).
Proof.
  intros H. apply Forall_forall. intros [i a] Hin.
  apply in_combine_r in Hin. rewrite Forall_forall in H. apply H, Hin.
Qed.

Lemma rule_based_ok (query : str) (relevant_docs : list Doc) :
  Forall (fun doc => is_retrieval_result doc = true) relevant_docs ->
  _generate_rule_based_response query relevant_docs =
  Ok (rule_based_text relevant_docs).
Proof.
  intros Hwf. unfold _generate_rule_based_response, rule_based_text.
  destruct relevant_docs as [| doc rest]; [reflexivity |].
  rewrite numbered_items_ok.
  - cbn [bind]. rewrite <- app_assoc. reflexivity.
  - apply (Forall_enumerate (fun doc => is_retrieval_result doc = true)).
    apply Forall_prefix, Hwf.
Qed.

Lemma collect_sources_ok (relevant_docs : list Doc) :
  Forall (fun doc => is_retrieval_result doc = true) relevant_docs ->
  collect_sources relevant_docs = Ok (map metadata_of relevant_docs).
Proof.
  intros Hwf. unfold collect_sources. apply mapM_ok.
  eapply Forall_impl; [| exact Hwf].
  intros doc Hdoc. destruct (retrieval_result_fields doc Hdoc) as (_ & -> & _).
  reflexivity.
Qed.

Lemma py_sum_ok (relevant_docs : list Doc) :
  Forall (fun doc => is_retrieval_result doc = true) relevant_docs ->
  forall acc,
    py_sum acc (map score_or_zero relevant_docs) =
    Ok (fold_left Qplus (map score_of relevant_docs) acc).
Proof.
  induction 1 as [| doc rest Hdoc _ IH]; intros acc; [reflexivity |].
  cbn [map py_sum fold_left]. unfold score_or_zero at 1.
  destruct (retrieval_result_fields doc Hdoc) as (_ & _ & ->).
  apply IH.
Qed.

Lemma fold_left_sum (scores : list Q) :
  forall acc, fold_left Qplus scores acc == acc + sum_scores scores.
Proof.
  induction scores as [| q rest IH]; intros acc; simpl.
  - ring.
  - rewrite IH. ring.
Qed.

Lemma calculate_confidence_mean (relevant_docs : list Doc) :
  Forall (fun doc => is_retrieval_result doc = true) relevant_docs ->
  relevant_docs <> [] ->
  exists c, _calculate_confidence relevant_docs = Ok c /\
            c == mean (map score_of relevant_docs).
Proof.
  intros Hwf Hne. unfold _calculate_confidence.
  destruct relevant_docs as [| doc rest]; [congruence |].
  cbn [map]. change (score_or_zero doc :: map score_or_zero rest)
    with (map score_or_zero (doc :: rest)).
  rewrite (py_sum_ok _ Hwf). cbn [bind]. eexists. split; [reflexivity |].
  unfold mean. rewrite fold_left_sum, Qplus_0_l.
  cbn [map length]. rewrite !length_map. reflexivity.
Qed.

Lemma generate_with_model_ok (pipeline : str -> nat -> result str) (prompt : str) :
  exists text, _generate_with_model pipeline prompt = Ok text.
Proof.
  unfold _generate_with_model.
  destruct (pipeline prompt _); cbn [bind try_except]; eexists; reflexivity.
Qed.

Lemma calculate_confidence_ok (relevant_docs : list Doc) :
  Forall (fun doc => is_retrieval_result doc = true) relevant_docs ->
  exists c, _calculate_confidence relevant_docs = Ok c.
Proof.
  intros Hwf. destruct relevant_docs as [| doc rest].
  - exists 0. reflexivity.
  - destruct (calculate_confidence_mean (doc :: rest) Hwf) as (c & Hc & _);
      [discriminate | exists c; exact Hc].
Qed.

(** For entries built by the retriever no step raises, and the answer is
    made of the results of the steps. *)
Lemma generate_steps (g : LegalResponseGenerator) (query : str)
  (relevant_docs : list Doc) :
  Forall (fun doc => is_retrieval_result doc = true) relevant_docs ->
  exists context text c,
    _create_context relevant_docs = Ok context /\
    select_response g query (_create_legal_prompt query context) relevant_docs
      = Ok text /\
    _calculate_confidence relevant_docs = Ok c /\
    generate_legal_response g query relevant_docs =
    Ok {| response := text;
          sources := map metadata_of relevant_docs;
          confidence := c |}.
Proof.
  intros Hwf.
  destruct (create_context_ok relevant_docs Hwf) as (context & Hctx).
  destruct (calculate_confidence_ok relevant_docs Hwf) as (c & Hc).
  assert (Htext : exists text,
             select_response g query (_create_legal_prompt query context)
                             relevant_docs = Ok text).
  { unfold select_response. destruct (generator g) as [pipeline |].
    - apply generate_with_model_ok.
    - rewrite (rule_based_ok query relevant_docs Hwf). eexists; reflexivity. }
  destruct Htext as (text & Htext).
  exists context, text, c. repeat split; try assumption.
  unfold generate_legal_response, generate_body.
  rewrite Hctx. cbn [bind]. rewrite Htext. cbn [bind].
  rewrite (collect_sources_ok relevant_docs Hwf). cbn [bind].
  rewrite Hc. reflexivity.
Qed.

End Generation.

Section GenerationTheorems.

Import Rag RagSpec Samples.
Local Open Scope Q_scope.

(** C5.  For entries built by the retriever (content, metadata and a numeric
    score present), [generate_legal_response] returns an answer whose
    confidence is 0 when the list is empty and otherwise equals, as a
    number, the arithmetic mean of the similarity scores of all the entries
    supplied; this holds whether or not a model is loaded and whatever the
    model does. *)
Theorem confidence_is_mean_score
  (g : LegalResponseGenerator) (query : str) (relevant_docs : list Doc) :
  Forall (fun doc => is_retrieval_result doc = true) relevant_docs ->
  exists answer,
    generate_legal_response g query relevant_docs = Ok answer /\
    (relevant_docs = [] -> confidence answer = 0) /\
    (relevant_docs <> [] ->
     confidence answer == mean (map score_of relevant_docs)).
Proof.
  intros Hwf.
  destruct (generate_steps g query relevant_docs Hwf)
    as (context & text & c & _ & _ & Hc & Hanswer).
  eexists. split; [exact Hanswer |]. cbn [confidence]. split.
  - intros ->. simpl in Hc. injection Hc as <-. reflexivity.
  - intros Hne.
    destruct (calculate_confidence_mean relevant_docs Hwf Hne) as (c' & Hc' & Hmean).
    rewrite Hc in Hc'. injection Hc' as <-. exact Hmean.
Qed.

(** Two entries with the scores 0.9 and 0.7 give the confidence 0.8. *)
Lemma confidence_is_mean_score_witness :
  Forall (fun doc => is_retrieval_result doc = true) [doc_equality; doc_bail] /\
  exists answer,
    generate_legal_response unloaded_generator (lit "What is Article 14?")
                            [doc_equality; doc_bail] = Ok answer /\
    confidence answer == 8 # 10.
Proof.
  assert (Hwf : Forall (fun doc => is_retrieval_result doc = true)
                       [doc_equality; doc_bail])
    by (repeat constructor).
  split; [exact Hwf |].
  destruct (confidence_is_mean_score
              unloaded_generator (lit "What is Article 14?")
              [doc_equality; doc_bail] Hwf)
    as (answer & Hanswer & _ & Hmean).
  exists answer. split; [exact Hanswer |].
  rewrite Hmean by discriminate. reflexivity.
Defined.

Lemma mapM_ok_inv {A B : Type} (f : A -> result B) (l : list A) (bs : list B) :
  mapM f l = Ok bs -> Forall (fun a => exists b, f a = Ok b) l.
Proof.
  revert bs. induction l as [| a l IH]; intros bs H; [constructor |].
  cbn [mapM] in H. destruct (f a) as [b | e] eqn:Ha; cbn [bind] in H;
    [| discriminate].
  destruct (mapM f l) as [bs' | e]; cbn [bind] in H; [| discriminate].
  constructor; [exists b; exact Ha | exact (IH bs' eq_refl)].
Qed.

(** When the context could be built, the first three entries have their
    content. *)
Lemma context_ok_has_content (relevant_docs : list Doc) (context : str) :
  _create_context relevant_docs = Ok context ->
  Forall (fun doc => content doc <> None) (py_prefix 3 relevant_docs).
Proof.
  unfold _create_context. intros H.
  match type of H with
  | context [mapM ?f ?l] => destruct (mapM f l) as [parts | e] eqn:Hparts
  end; cbn [bind] in H; [| discriminate].
  apply mapM_ok_inv in Hparts. eapply Forall_impl; [| exact Hparts].
  intros doc [b Hb]. cbv beta in Hb. intros Hnone. rewrite Hnone in Hb.
  discriminate.
Qed.

Lemma numbered_items_total (items : list (nat * Doc)) :
  Forall (fun item => content (snd item) <> None) items ->
  forall acc, exists out, numbered_items acc items = Ok out.
Proof.
  induction 1 as [| [i doc] items Hdoc _ IH]; intros acc;
    [eexists; reflexivity |].
  cbn [numbered_items]. cbn [snd] in Hdoc.
  destruct (content doc) as [c |]; [| congruence].
  cbn [getitem bind]. apply IH.
Qed.

(** Once the context is built, producing the response cannot raise: the
    model path catches its exceptions itself, and the rule-based responder
    reads the content of the first two entries only, which the context has
    read already. *)
Lemma select_response_total (g : LegalResponseGenerator) (query prompt : str)
  (relevant_docs : list Doc) (context : str) :
  _create_context relevant_docs = Ok context ->
  exists text, select_response g query prompt relevant_docs = Ok text.
Proof.
  intros Hctx. unfold select_response.
  destruct (generator g) as [pipeline |]; [apply generate_with_model_ok |].
  unfold _generate_rule_based_response.
  destruct relevant_docs as [| doc rest]; [eexists; reflexivity |].
  destruct (numbered_items_total (enumerate (py_prefix 2 (doc :: rest))))
    with (acc := rule_based_header) as [out Hout].
  - apply (Forall_enumerate (fun d => content d <> None)).
    pose proof (context_ok_has_content _ _ Hctx) as H3.
    unfold py_prefix in *.
    replace (firstn 2 (doc :: rest)) with (firstn 2 (firstn 3 (doc :: rest)))
      by (rewrite firstn_firstn; reflexivity).
    rewrite <- (firstn_skipn 2 (firstn 3 (doc :: rest))) in H3.
    apply Forall_app in H3. tauto.
  - rewrite Hout. cbn [bind]. eexists; reflexivity.
Qed.

(** C6 (as amended).  [generate_legal_response] always returns an answer, it
    never raises.  When the construction of the context, the collection of
    the sources or the computation of the confidence raises, the answer is
    the fixed one: the apology, no sources, confidence 0.  The construction
    of the prompt is string concatenation and cannot raise, and once the
    context is built the production of the response does not raise either.
    An exception that the model raises during generation does not lead to
    the fixed answer: [_generate_with_model] catches it, and the answer
    carries the fixed text "Unable to generate response with language
    model." together with the sources and the confidence of the entries. *)
Theorem generate_catches_step_exceptions
  (g : LegalResponseGenerator) (query : str) (relevant_docs : list Doc) :
  (exists answer, generate_legal_response g query relevant_docs = Ok answer) /\
  (forall e,
      _create_context relevant_docs = Raise e \/
      collect_sources relevant_docs = Raise e \/
      _calculate_confidence relevant_docs = Raise e ->
      generate_legal_response g query relevant_docs = Ok degraded_answer) /\
  (forall context,
      _create_context relevant_docs = Ok context ->
      exists text,
        select_response g query (_create_legal_prompt query context)
                        relevant_docs = Ok text) /\
  (forall pipeline context e srcs c,
      generator g = Some pipeline ->
      _create_context relevant_docs = Ok context ->
      pipeline (_create_legal_prompt query context)
               (length (words (_create_legal_prompt query context)) + 150)%nat
        = Raise e ->
      collect_sources relevant_docs = Ok srcs ->
      _calculate_confidence relevant_docs = Ok c ->
      generate_legal_response g query relevant_docs =
      Ok {| response := model_failure_message;
            sources := srcs;
            confidence := c |}).
Proof.
  split; [| split; [| split]].
  - unfold generate_legal_response.
    destruct (generate_body g query relevant_docs); cbn [try_except];
      eexists; reflexivity.
  - unfold generate_legal_response, generate_body.
    destruct (_create_context relevant_docs) as [context | e1] eqn:Hctx;
      cbn [bind try_except]; [| reflexivity].
    destruct (select_response g query (_create_legal_prompt query context)
                              relevant_docs) as [text | e2];
      cbn [bind try_except]; [| reflexivity].
    destruct (collect_sources relevant_docs) as [srcs | e3];
      cbn [bind try_except]; [| reflexivity].
    destruct (_calculate_confidence relevant_docs) as [c | e4];
      cbn [bind try_except]; [| reflexivity].
    intros e [H | [H | H]]; discriminate.
  - intros context Hctx. exact (select_response_total g query _ _ context Hctx).
  - intros pipeline context e srcs c Hgen Hctx Hraise Hsrcs Hc.
    unfold generate_legal_response, generate_body, select_response.
    rewrite Hctx. cbn [bind]. rewrite Hgen. unfold _generate_with_model.
    rewrite Hraise. cbn [bind try_except]. rewrite Hsrcs. cbn [bind].
    rewrite Hc. reflexivity.
Qed.

(** An entry without the key ['content'] makes the construction of the
    context raise [KeyError]; the answer is the fixed one. *)
Lemma generate_catches_step_exceptions_witness :
  _create_context [doc_without_content] = Raise (KeyError "content") /\
  generate_legal_response unloaded_generator (lit "What is bail?")
                          [doc_without_content] = Ok degraded_answer.
Proof.
  assert (H : _create_context [doc_without_content] = Raise (KeyError "content"))
    by reflexivity.
  split; [exact H |].
  exact (proj1 (proj2 (generate_catches_step_exceptions
                         unloaded_generator (lit "What is bail?")
                         [doc_without_content])) _ (or_introl H)).
Defined.

(** C6, counterexample.  A loaded model that raises during generation, with
    one entry: the answer is not the fixed one.  Its response is the text
    of [_generate_with_model], its sources hold the metadata of the entry,
    and its confidence is the score of the entry, 7/10. *)
Lemma raising_model_answer_is_not_degraded :
  (exists pipeline,
      generator raising_generator = Some pipeline /\
      forall prompt max_length,
        pipeline prompt max_length = Raise (RuntimeError "out of memory")) /\
  exists answer,
    generate_legal_response raising_generator (lit "What is bail?") [doc_bail]
    = Ok answer /\
    response answer = model_failure_message /\
    sources answer = [[("source"%string, MStr (lit "Criminal Procedure"))]] /\
    confidence answer == 7 # 10 /\
    answer <> degraded_answer.
Proof.
  split; [eexists; split; reflexivity |].
  eexists. split; [reflexivity |]. split; [reflexivity |].
  split; [reflexivity |]. split; [reflexivity |]. discriminate.
Qed.

(** A score that is not a number makes the computation of the confidence
    raise [TypeError], after the other steps went through; the answer is the
    fixed one again. *)
Example confidence_error_gives_apology :
  _create_context [doc_with_text_score] <> Raise (KeyError "content") /\
  _calculate_confidence [doc_with_text_score] = Raise TypeError /\
  generate_legal_response unloaded_generator (lit "What is bail?")
                          [doc_with_text_score] = Ok degraded_answer.
Proof. repeat split; try reflexivity. discriminate. Qed.

(** C7 (as amended).  For entries built by the retriever:
    when the model failed to load ([generator] is [None]), the response is
    that of the rule-based responder: the fixed no-information message for an
    empty list, and otherwise the fixed header, then for each of the first
    two entries its number, ". ", the first 300 characters of its content,
    "..." and a blank line, then the fixed educational disclaimer;
    when the model is loaded and raises during generation, the response is
    the fixed text "Unable to generate response with language model.". *)
Theorem unavailable_model_response
  (g : LegalResponseGenerator) (query : str) (relevant_docs : list Doc) :
  Forall (fun doc => is_retrieval_result doc = true) relevant_docs ->
  exists answer,
    generate_legal_response g query relevant_docs = Ok answer /\
    (generator g = None -> response answer = rule_based_text relevant_docs) /\
    (forall pipeline context e,
        generator g = Some pipeline ->
        _create_context relevant_docs = Ok context ->
        let prompt := _create_legal_prompt query context in
        pipeline prompt (length (words prompt) + 150)%nat = Raise e ->
        response answer = model_failure_message).
Proof.
  intros Hwf.
  destruct (generate_steps g query relevant_docs Hwf)
    as (context & text & c & Hctx & Htext & _ & Hanswer).
  eexists. split; [exact Hanswer |]. cbn [response].
  unfold select_response in Htext. split.
  - intros Hnone. rewrite Hnone, (rule_based_ok query relevant_docs Hwf) in Htext.
    injection Htext as <-. reflexivity.
  - intros pipeline context' e Hsome Hctx'. cbv zeta. intros Hraise.
    rewrite Hctx in Hctx'. injection Hctx' as <-.
    rewrite Hsome in Htext. unfold _generate_with_model in Htext.
    rewrite Hraise in Htext. cbn [bind try_except] in Htext.
    injection Htext as <-. reflexivity.
Qed.

Lemma unavailable_model_response_witness :
  Forall (fun doc => is_retrieval_result doc = true) [doc_equality; doc_bail] /\
  exists answer,
    generate_legal_response unloaded_generator (lit "What is Article 14?")
                            [doc_equality; doc_bail] = Ok answer /\
    response answer =
    rule_based_header
    ++ lit "1. Article 14 guarantees equality before law..." ++ newline ++ newline
    ++ lit "2. Bail is the rule and jail the exception..." ++ newline ++ newline
    ++ educational_disclaimer.
Proof.
  assert (Hwf : Forall (fun doc => is_retrieval_result doc = true)
                       [doc_equality; doc_bail])
    by (repeat constructor).
  split; [exact Hwf |].
  destruct (unavailable_model_response
              unloaded_generator (lit "What is Article 14?")
              [doc_equality; doc_bail] Hwf)
    as (answer & Hanswer & Hrule & _).
  exists answer. split; [exact Hanswer |].
  rewrite (Hrule eq_refl). reflexivity.
Defined.

(** C7, counterexample.  A loaded model that raises during generation: the
    response is the fixed text of [_generate_with_model], not what the
    rule-based responder returns, for an empty list of entries and for a
    list of one entry alike. *)
Lemma raising_model_is_not_rule_based :
  generate_legal_response raising_generator (lit "What is bail?") [] =
  Ok {| response := model_failure_message; sources := []; confidence := 0 |} /\
  _generate_rule_based_response (lit "What is bail?") [] =
  Ok no_information_message /\
  model_failure_message <> no_information_message /\
  (exists answer,
      generate_legal_response raising_generator (lit "What is bail?") [doc_bail]
      = Ok answer /\
      response answer = model_failure_message /\
      _generate_rule_based_response (lit "What is bail?") [doc_bail]
      <> Ok (response answer)).
Proof.
  split; [reflexivity |]. split; [reflexivity |]. split; [discriminate |].
  eexists. split; [reflexivity |]. split; [reflexivity |]. discriminate.
Qed.

(** C9 (as amended).  With an empty list of entries the answer always has
    confidence 0 and no sources.  Its response is the fixed no-information
    message when the model failed to load; when a model is loaded the
    response is what [_generate_with_model] makes of the prompt: the output of
    the model without the prompt, or the fixed text for a model that
    raises. *)
Theorem generate_without_docs (g : LegalResponseGenerator) (query : str) :
  exists answer,
    generate_legal_response g query [] = Ok answer /\
    confidence answer = 0 /\
    sources answer = [] /\
    (generator g = None -> response answer = no_information_message) /\
    (forall pipeline,
        generator g = Some pipeline ->
        _generate_with_model pipeline (_create_legal_prompt query [])
        = Ok (response answer)).
Proof.
  unfold generate_legal_response, generate_body, select_response.
  cbn [_create_context py_prefix firstn mapM bind join].
  destruct (generator g) as [pipeline |].
  - destruct (generate_with_model_ok pipeline (_create_legal_prompt query []))
      as (text & Htext).
    rewrite Htext. eexists. split; [reflexivity |].
    cbn. repeat split; try discriminate.
    intros pipeline' H. injection H as <-. exact Htext.
  - eexists. split; [reflexivity |]. cbn. repeat split; discriminate.
Qed.

Lemma generate_without_docs_witness :
  exists answer,
    generate_legal_response unloaded_generator (lit "What is bail?") []
    = Ok answer /\
    confidence answer = 0 /\
    response answer = no_information_message.
Proof.
  destruct (generate_without_docs unloaded_generator (lit "What is bail?"))
    as (answer & Hanswer & Hconf & _ & Hnone & _).
  exists answer. repeat split; [exact Hanswer | exact Hconf | exact (Hnone eq_refl)].
Defined.

(** C9, counterexample.  A loaded model that continues the prompt with a
    sentence of its own: with no entries at all the response is that
    sentence, not a message that no information was found. *)
Lemma loaded_model_answers_without_docs :
  generate_legal_response echo_generator (lit "What is bail?") [] =
  Ok {| response := lit "Article 21 protects life and personal liberty.";
        sources := [];
        confidence := 0 |} /\
  lit "Article 21 protects life and personal liberty."
  <> no_information_message.
Proof.
  split; [vm_compute; reflexivity | discriminate].
Qed.

End GenerationTheorems.

(* ================================================================== *)
(** * Further properties of the string functions *)
(* ================================================================== *)

Section MoreStringFacts.

Lemma lstrip_idem (t : str) : lstrip (lstrip t) = lstrip t.
Proof. apply lstrip_fixed, lstrip_head. Qed.

Lemma rstrip_idem (t : str) : rstrip (rstrip t) = rstrip t.
Proof.
  unfold rstrip. rewrite rev_involutive, lstrip_idem. reflexivity.
Qed.

(** [strip] leaves a stripped text alone. *)
Lemma strip_idem (t : str) : strip (strip t) = strip t.
Proof.
  unfold strip at 1. rewrite lstrip_fixed by apply strip_head.
  unfold strip. apply rstrip_idem.
Qed.

Lemma lstrip_length (t : str) : length (lstrip t) <= length t.
Proof.
  destruct (lstrip_decomp t) as (ws & Heq & _).
  rewrite Heq at 2. rewrite length_app. lia.
Qed.

Lemma strip_length (t : str) : length (strip t) <= length t.
Proof.
  unfold strip, rstrip. rewrite length_rev.
  etransitivity; [apply lstrip_length |]. rewrite length_rev.
  apply lstrip_length.
Qed.

Lemma lstrip_Forall (P : ascii -> Prop) (t : str) :
  Forall P t -> Forall P (lstrip t).
Proof.
  intros H. destruct (lstrip_decomp t) as (ws & Heq & _).
  rewrite Heq in H. apply Forall_app in H. tauto.
Qed.

Lemma strip_Forall (P : ascii -> Prop) (t : str) :
  Forall P t -> Forall P (strip t).
Proof.
  intros H. unfold strip, rstrip.
  apply Forall_rev, lstrip_Forall, Forall_rev, lstrip_Forall, H.
Qed.

Lemma words_not_nil (t : str) (c : ascii) :
  In c t -> is_space c = false -> words t <> [].
Proof.
  intros Hin Hc. induction t as [| c0 t IH]; [destruct Hin |].
  cbn [words]. destruct (is_space c0) eqn:Hc0.
  - destruct Hin as [-> | Hin]; [congruence | apply IH, Hin].
  - destruct t as [| d t']; [discriminate |].
    destruct (is_space d); [discriminate |].
    destruct (words (d :: t')); discriminate.
Qed.

Lemma words_are_words (t : str) : Forall is_word_of_text (words t).
Proof.
  induction t as [| c t IH]; [constructor |].
  cbn [words]. destruct (is_space c) eqn:Hc; [exact IH |].
  assert (Hone : is_word_of_text [c])
    by (split; [discriminate | repeat constructor; exact Hc]).
  destruct t as [| d t']; [constructor; [exact Hone | constructor] |].
  destruct (is_space d); [constructor; [exact Hone | exact IH] |].
  destruct (words (d :: t')) as [| w ws];
    [constructor; [exact Hone | constructor] |].
  inversion IH as [| ? ? [Hne Hw] Hws]; subst.
  constructor; [| exact Hws].
  split; [discriminate | constructor; assumption].
Qed.

Lemma words_word_space (w rest : str) :
  is_word_of_text w -> words (w ++ lit " " ++ rest) = w :: words rest.
Proof.
  intros [Hne Hw]. induction w as [| c w IH]; [congruence |].
  inversion Hw as [| ? ? Hc Hw']; subst.
  cbn [app words]. rewrite Hc.
  destruct w as [| d w'].
  - reflexivity.
  - cbn [app] in *. inversion Hw' as [| ? ? Hd _]; subst. rewrite Hd.
    rewrite IH by (discriminate || assumption). reflexivity.
Qed.

(** The words of words joined by spaces and followed by a space and more
    text: the words, then those of that text. *)
Lemma words_join_space (ws : list str) (rest : str) :
  Forall is_word_of_text ws ->
  words (join (lit " ") ws ++ lit " " ++ rest) = ws ++ words rest.
Proof.
  induction 1 as [| w ws Hw Hws IH]; [reflexivity |].
  destruct ws as [| w' ws'].
  - cbn [join app]. apply (words_word_space w rest Hw).
  - change (join (lit " ") (w :: w' :: ws'))
      with (w ++ lit " " ++ join (lit " ") (w' :: ws')).
    repeat rewrite <- app_assoc.
    rewrite (words_word_space w _ Hw). rewrite IH. reflexivity.
Qed.

Lemma py_tail_Forall {A : Type} (P : A -> Prop) (n : nat) (l : list A) :
  Forall P l -> Forall P (py_tail n l).
Proof.
  intros H. destruct (py_tail_suffix n l) as (before & Heq).
  rewrite Heq in H. apply Forall_app in H. tauto.
Qed.

Lemma py_tail_not_nil {A : Type} (n : nat) (l : list A) :
  l <> [] -> py_tail n l <> [].
Proof.
  intros Hne. unfold py_tail. destruct (n =? 0) eqn:Hn; [exact Hne |].
  apply Nat.eqb_neq in Hn. intros Hnil.
  apply (f_equal (@length A)) in Hnil. rewrite length_skipn in Hnil.
  change (length (@nil A)) with 0 in Hnil.
  assert (0 < length l) by (destruct l; [congruence | simpl; lia]). lia.
Qed.

(** [needle in hay] holds exactly when [hay] can be cut around [needle]. *)
Lemma startswith_app (p rest : str) : startswith p (p ++ rest) = true.
Proof.
  induction p as [| a p IH]; [reflexivity |].
  simpl. rewrite Ascii.eqb_refl. exact IH.
Qed.

Lemma contains_infix (needle hay : str) :
  contains needle hay = true <->
  exists before after, hay = before ++ needle ++ after.
Proof.
  split.
  - induction hay as [| c hay IH]; cbn [contains]; intros H.
    + destruct needle; [| discriminate]. exists [], []. reflexivity.
    + apply orb_true_iff in H. destruct H as [H | H].
      * exists [], (skipn (length needle) (c :: hay)).
        exact (startswith_skipn _ _ H).
      * destruct (IH H) as (before & after & ->).
        exists (c :: before), after. reflexivity.
  - intros (before & after & ->).
    induction before as [| c before IH].
    + cbn [app]. destruct (needle ++ after) eqn:Heq.
      * destruct needle; [reflexivity | discriminate].
      * cbn [contains]. rewrite <- Heq, startswith_app. reflexivity.
    + cbn [app contains]. rewrite IH. apply orb_true_r.
Qed.

Lemma infix_lstrip (y t : str) :
  (exists c r, y = c :: r /\ is_space c = false) ->
  (exists a b, t = a ++ y ++ b) ->
  exists a b, lstrip t = a ++ y ++ b.
Proof.
  intros (c & r & -> & Hc) (a & b & ->).
  induction a as [| x a IH].
  - exists [], b. cbn [app lstrip]. rewrite Hc. reflexivity.
  - cbn [app lstrip]. destruct (is_space x); [exact IH |].
    exists (x :: a), b. reflexivity.
Qed.

Lemma infix_rev (y t : str) :
  (exists a b, t = a ++ y ++ b) -> exists a b, rev t = a ++ rev y ++ b.
Proof.
  intros (a & b & ->). exists (rev b), (rev a).
  repeat rewrite rev_app_distr. rewrite app_assoc. reflexivity.
Qed.

Lemma infix_rstrip (y t : str) :
  (exists r c, y = r ++ [c] /\ is_space c = false) ->
  (exists a b, t = a ++ y ++ b) ->
  exists a b, rstrip t = a ++ y ++ b.
Proof.
  intros (r & c & -> & Hc) Hin. unfold rstrip.
  rewrite <- (rev_involutive (r ++ [c])).
  apply infix_rev, infix_lstrip; [| apply infix_rev, Hin].
  exists c, (rev r). rewrite rev_app_distr. split; [reflexivity | exact Hc].
Qed.

Lemma rstrip_last (t : str) :
  rstrip t = [] \/ exists r c, rstrip t = r ++ [c] /\ is_space c = false.
Proof.
  unfold rstrip. destruct (lstrip_head (rev t)) as [-> | (c & r & -> & Hc)];
    [left; reflexivity |].
  right. exists (rev r), c. split; [reflexivity | exact Hc].
Qed.

(** A text occurs in another: its stripped form occurs in the stripped form
    of the other. *)
Lemma infix_strip (s t : str) :
  (exists a b, t = a ++ s ++ b) ->
  exists a b, strip t = a ++ strip s ++ b.
Proof.
  intros (a & b & ->).
  destruct (strip_head s) as [Hnil | Hhead].
  { rewrite Hnil. exists [], (strip (a ++ s ++ b)). reflexivity. }
  assert (Hlast : exists r c, strip s = r ++ [c] /\ is_space c = false).
  { unfold strip in *. destruct (rstrip_last (lstrip s)) as [Hnil | H];
      [| exact H].
    destruct Hhead as (? & ? & H & _). rewrite Hnil in H. discriminate. }
  assert (Hin : exists a' b', a ++ s ++ b = a' ++ strip s ++ b').
  { destruct (lstrip_decomp s) as (ws1 & H1 & _).
    destruct (rstrip_decomp (lstrip s)) as (ws2 & H2 & _).
    exists (a ++ ws1), (ws2 ++ b). unfold strip.
    rewrite H1 at 1. rewrite H2 at 1.
    repeat rewrite <- app_assoc. reflexivity. }
  unfold strip at 1. apply infix_rstrip; [exact Hlast |].
  apply infix_lstrip; [exact Hhead | exact Hin].
Qed.

End MoreStringFacts.

(* ================================================================== *)
(** * Further properties of cleaning and chunking *)
(* ================================================================== *)

Section MoreChunker.

Import Ingestion.

Lemma sub_spaces_spaces (t : str) :
  forall in_run,
    Forall (fun c => is_space c = true -> c = " "%char) (sub_spaces in_run t).
Proof.
  induction t as [| c t IH]; intros in_run; [constructor |].
  cbn [sub_spaces]. destruct (is_space c) eqn:Hc.
  - destruct in_run; [apply IH |]. constructor; [reflexivity | apply IH].
  - constructor; [congruence | apply IH].
Qed.

Lemma sub_spaces_length (t : str) :
  forall in_run, length (sub_spaces in_run t) <= length t.
Proof.
  induction t as [| c t IH]; intros in_run; [apply Nat.le_refl |].
  pose proof (IH true) as Ht. pose proof (IH false) as Hf.
  cbn [sub_spaces]. destruct (is_space c); [destruct in_run |];
    cbn [length]; lia.
Qed.

Lemma filter_Forall {A : Type} (P : A -> Prop) (f : A -> bool) (l : list A) :
  Forall P l -> Forall P (filter f l).
Proof.
  rewrite !Forall_forall. intros H x Hx. apply filter_In in Hx. apply H, Hx.
Qed.

Lemma filter_Forall_true {A : Type} (f : A -> bool) (l : list A) :
  Forall (fun x => f x = true) (filter f l).
Proof. apply Forall_forall. intros x Hx. apply filter_In in Hx. tauto. Qed.

Lemma drop_digits_suffix (t : str) : exists ds, t = ds ++ drop_digits t.
Proof.
  induction t as [| c t (ds & IH)]; [exists []; reflexivity |].
  cbn [drop_digits]. destruct (is_digit c).
  - exists (c :: ds). simpl. f_equal. exact IH.
  - exists []. reflexivity.
Qed.

(** What follows a page marker is a proper end piece of the text. *)
Lemma match_page_marker_suffix (t after : str) :
  match_page_marker t = Some after ->
  exists marker, t = marker ++ after /\ marker <> [].
Proof.
  unfold match_page_marker.
  destruct (startswith (lit "--- Page ") t) eqn:Hsw; [| discriminate].
  destruct (_ && _); [| discriminate]. intros H. injection H as <-.
  apply startswith_skipn in Hsw. change (length (lit "--- Page ")) with 9 in Hsw.
  destruct (drop_digits_suffix (skipn 9 t)) as (ds & Hds).
  exists (lit "--- Page " ++ ds ++ firstn 4 (drop_digits (skipn 9 t))).
  split; [| discriminate].
  repeat rewrite <- app_assoc. rewrite firstn_skipn, <- Hds. exact Hsw.
Qed.

Lemma remove_page_markers_Forall (P : ascii -> Prop) (fuel : nat) :
  forall t, Forall P t -> Forall P (remove_page_markers fuel t).
Proof.
  induction fuel as [| f IH]; intros t H; [exact H |].
  destruct t as [| c rest]; [constructor |].
  cbn [remove_page_markers].
  destruct (match_page_marker (c :: rest)) as [after |] eqn:Hm.
  - destruct (match_page_marker_suffix _ _ Hm) as (marker & Heq & _).
    rewrite Heq in H. apply Forall_app in H. apply IH. tauto.
  - inversion H; subst. constructor; [assumption | apply IH; assumption].
Qed.

Lemma remove_page_markers_length (fuel : nat) :
  forall t, length (remove_page_markers fuel t) <= length t.
Proof.
  induction fuel as [| f IH]; intros t; [apply Nat.le_refl |].
  destruct t as [| c rest]; [apply Nat.le_refl |].
  cbn [remove_page_markers].
  destruct (match_page_marker (c :: rest)) as [after |] eqn:Hm.
  - destruct (match_page_marker_suffix _ _ Hm) as (marker & Heq & _).
    rewrite Heq, length_app. specialize (IH after). lia.
  - simpl. specialize (IH rest). lia.
Qed.

Lemma clean_text_clean_chars (text : str) :
  Forall clean_char (_clean_text text).
Proof.
  unfold _clean_text.
  apply strip_Forall, remove_page_markers_Forall.
  apply Forall_and.
  - apply filter_Forall_true.
  - apply filter_Forall, sub_spaces_spaces.
Qed.

Lemma sub_spaces_Forall (P : ascii -> Prop) (t : str) :
  P " "%char -> Forall P t -> forall in_run, Forall P (sub_spaces in_run t).
Proof.
  intros Hsp. induction 1 as [| c t Hc _ IH]; intros in_run; [constructor |].
  cbn [sub_spaces]. destruct (is_space c).
  - destruct in_run; [apply IH |]. constructor; [exact Hsp | apply IH].
  - constructor; [exact Hc | apply IH].
Qed.

(** Cleaning brings in no character but the plain space. *)
Lemma clean_text_Forall (P : ascii -> Prop) (text : str) :
  P " "%char -> Forall P text -> Forall P (_clean_text text).
Proof.
  intros Hsp H. unfold _clean_text.
  apply strip_Forall, remove_page_markers_Forall, filter_Forall.
  apply sub_spaces_Forall; assumption.
Qed.

Lemma is_ascii_text_check (t : str) :
  forallb (fun c => nat_of_ascii c <? 128) t = true -> is_ascii_text t.
Proof.
  intros H. apply Forall_forall. intros c Hc.
  rewrite forallb_forall in H. apply Nat.ltb_lt, H, Hc.
Qed.

(** X1.  For every ASCII text: its cleaned form is ASCII text, it holds only
    characters of the class kept by the filter (ASCII letters, digits and
    underscore, white space and the listed punctuation), its only white
    space is the plain space, it neither starts nor ends with white space,
    and it is not longer than the text. *)
Theorem clean_text_characters (text : str) :
  is_ascii_text text ->
  let cleaned := _clean_text text in
  is_ascii_text cleaned /\
  Forall clean_char cleaned /\
  strip cleaned = cleaned /\
  length cleaned <= length text.
Proof.
  intros Hascii. cbv zeta. split; [| split; [| split]].
  - apply (clean_text_Forall (fun c => nat_of_ascii c < 128));
      [apply Nat.ltb_lt; reflexivity | exact Hascii].
  - apply clean_text_clean_chars.
  - unfold _clean_text. apply strip_idem.
  - unfold _clean_text.
    etransitivity; [apply strip_length |].
    etransitivity; [apply remove_page_markers_length |].
    etransitivity; [apply filter_length_le |].
    apply sub_spaces_length.
Qed.

Lemma clean_text_characters_witness :
  is_ascii_text tabbed_text /\
  _clean_text tabbed_text = lit "Bail is granted under Section_437;" /\
  Forall clean_char (_clean_text tabbed_text) /\
  length (_clean_text tabbed_text) <= length tabbed_text.
Proof.
  assert (H : is_ascii_text tabbed_text)
    by (apply is_ascii_text_check; reflexivity).
  split; [exact H |]. split; [reflexivity |].
  destruct (clean_text_characters _ H) as (_ & Hclean & _ & Hlen).
  split; [exact Hclean | exact Hlen].
Defined.

Lemma In_join_head (sep w : str) (ws : list str) (c : ascii) :
  In c w -> In c (join sep (w :: ws)).
Proof.
  intros H. cbn [join]. destruct ws; [exact H |].
  apply in_or_app. left. exact H.
Qed.

Lemma chunk_step_buffer (p : DocumentProcessor) chunks cur s :
  buffer_ok cur -> words (snd (chunk_step p (chunks, cur) s)) <> [].
Proof.
  intros Hok. unfold chunk_step.
  destruct (_ <? _); cbn [andb]; [destruct (truthy cur) eqn:Htr |]; cbn [snd].
  - assert (Hw : words cur <> [])
      by (destruct Hok as [-> | H]; [discriminate | exact H]).
    pose proof (py_tail_not_nil (chunk_overlap p) _ Hw) as Hne.
    pose proof (py_tail_Forall _ (chunk_overlap p) _ (words_are_words cur)) as Hall.
    destruct (py_tail (chunk_overlap p) (words cur)) as [| w ov]; [congruence |].
    inversion Hall as [| ? ? [Hwne Hwc] _]; subst.
    destruct w as [| c w]; [congruence |]. inversion Hwc; subst.
    apply (words_not_nil _ c); [| assumption].
    apply in_or_app. left. apply In_join_head. left. reflexivity.
  - apply (words_not_nil _ "."%char); [| reflexivity].
    apply in_or_app. right. apply in_or_app. right. left. reflexivity.
  - apply (words_not_nil _ "."%char); [| reflexivity].
    apply in_or_app. right. apply in_or_app. right. left. reflexivity.
Qed.

Lemma strip_of_words_not_nil (t : str) : words t <> [] -> good_chunk (strip t).
Proof.
  intros Hw. split; [| apply strip_idem].
  intros Hnil. rewrite <- words_strip, Hnil in Hw. apply Hw. reflexivity.
Qed.

Lemma chunk_step_good (p : DocumentProcessor) chunks cur s :
  buffer_ok cur -> Forall good_chunk chunks ->
  Forall good_chunk (fst (chunk_step p (chunks, cur) s)).
Proof.
  intros Hok Hgood. unfold chunk_step.
  destruct (_ <? _); cbn [andb]; [destruct (truthy cur) eqn:Htr |]; cbn [fst];
    try exact Hgood.
  apply Forall_app. split; [exact Hgood |]. constructor; [| constructor].
  apply strip_of_words_not_nil.
  destruct Hok as [-> | H]; [discriminate | exact H].
Qed.

Lemma occurs_in_refl_app (a s b : str) : occurs_in s (a ++ s ++ b).
Proof. exists a, b. reflexivity. Qed.

Lemma chunk_step_kept (p : DocumentProcessor) st s0 s :
  kept st s0 -> kept (chunk_step p st s) s0.
Proof.
  destruct st as [chunks cur]. unfold chunk_step.
  intros [(c & Hin & Hocc) | Hocc];
    (destruct (_ <? _); cbn [andb]; [destruct (truthy cur) |]); cbn [fst snd] in *.
  - left. exists c. split; [apply in_or_app; left |]; assumption.
  - left. exists c. split; assumption.
  - left. exists c. split; assumption.
  - left. exists (strip cur). split.
    + apply in_or_app. right. left. reflexivity.
    + apply infix_strip, Hocc.
  - right. destruct Hocc as (a & b & ->). exists a, (b ++ s ++ lit ". ").
    repeat rewrite <- app_assoc. reflexivity.
  - right. destruct Hocc as (a & b & ->). exists a, (b ++ s ++ lit ". ").
    repeat rewrite <- app_assoc. reflexivity.
Qed.

Lemma chunk_step_keeps_new (p : DocumentProcessor) st s :
  kept (chunk_step p st s) s.
Proof.
  destruct st as [chunks cur]. unfold chunk_step. right.
  destruct (_ <? _); cbn [andb]; [destruct (truthy cur) |]; cbn [snd].
  - exists (join (lit " ") (py_tail (chunk_overlap p) (words cur)) ++ lit " "), [].
    rewrite app_nil_r, <- app_assoc. reflexivity.
  - exists cur, (lit ". "). reflexivity.
  - exists cur, (lit ". "). reflexivity.
Qed.

(** The state of the loop after the sentences [done]: the chunks closed so
    far are good, the buffer is in order, every sentence read is kept. *)
Lemma fold_chunk_step_state (p : DocumentProcessor) (rest : list str) :
  forall done st,
    Forall good_chunk (fst st) -> buffer_ok (snd st) ->
    (forall s, In s done -> kept st s) ->
    let st' := fold_left (chunk_step p) rest st in
    Forall good_chunk (fst st') /\
    buffer_ok (snd st') /\
    (rest <> [] -> words (snd st') <> []) /\
    (forall s, In s (done ++ rest) -> kept st' s).
Proof.
  induction rest as [| s rest IH]; intros done st Hgood Hok Hkept.
  - cbn [fold_left]. rewrite app_nil_r. repeat split; try assumption.
    congruence.
  - cbn [fold_left]. destruct st as [chunks cur]. cbn [fst snd] in Hgood, Hok.
    pose proof (chunk_step_buffer p chunks cur s Hok) as Hw.
    pose proof (chunk_step_good p chunks cur s Hok Hgood) as Hg.
    destruct (IH (done ++ [s]) (chunk_step p (chunks, cur) s) Hg (or_intror Hw))
      as (Hg' & Hok' & Hw' & Hkept').
    { intros s0 Hin. apply in_app_or in Hin. destruct Hin as [Hin | [<- | []]].
      - apply chunk_step_kept, Hkept, Hin.
      - apply chunk_step_keeps_new. }
    repeat split; try assumption.
    + intros _. destruct rest as [| s' rest'].
      * exact Hw.
      * apply Hw'. discriminate.
    + intros s0 Hin. apply Hkept'. rewrite <- app_assoc. exact Hin.
Qed.

Lemma split_not_nil (sep t : str) : split sep t <> [].
Proof. apply split_fuel_not_nil. Qed.

Lemma create_chunks_state (p : DocumentProcessor) (text : str) :
  exists chunks cur,
    fold_left (chunk_step p) (split (lit ". ") text) ([], []) = (chunks, cur) /\
    _create_chunks p text = chunks ++ [strip cur] /\
    Forall good_chunk (chunks ++ [strip cur]) /\
    (forall s, In s (split (lit ". ") text) -> kept (chunks, cur) s).
Proof.
  destruct (fold_chunk_step_state p (split (lit ". ") text) [] ([], []))
    as (Hg & _ & Hw & Hkept); try (constructor; fail).
  { left. reflexivity. }
  { intros s []. }
  specialize (Hw (split_not_nil _ _)).
  unfold _create_chunks.
  destruct (fold_left (chunk_step p) (split (lit ". ") text) ([], []))
    as [chunks cur]. cbn [fst snd] in *.
  exists chunks, cur. split; [reflexivity |].
  pose proof (strip_of_words_not_nil cur Hw) as Hgood.
  split; [| split].
  - unfold flush. destruct (strip cur); [destruct Hgood; congruence | reflexivity].
  - apply Forall_app. split; [exact Hg | constructor; [exact Hgood | constructor]].
  - exact Hkept.
Qed.

(** X3.  For every processor and every text the chunker returns at least
    one chunk, no chunk is empty, and no chunk starts or ends with white
    space. *)
Theorem create_chunks_never_empty (p : DocumentProcessor) (text : str) :
  _create_chunks p text <> [] /\
  Forall (fun c => c <> [] /\ strip c = c) (_create_chunks p text).
Proof.
  destruct (create_chunks_state p text) as (chunks & cur & _ & -> & Hgood & _).
  split; [destruct chunks; discriminate | exact Hgood].
Qed.

End MoreChunker.

Section MoreChunkerTheorems.

Import Ingestion.

(** X2.  For every text whose cleaned form has at most [chunk_size]
    characters the chunker returns exactly one chunk: the cleaned text
    followed by a full stop. *)
Theorem short_text_one_chunk_with_full_stop
  (p : DocumentProcessor) (text : str) :
  length (_clean_text text) <= chunk_size p ->
  _create_chunks p (_clean_text text) = [_clean_text text ++ lit "."].
Proof.
  intros Hlen. unfold _create_chunks.
  assert (Hcat : concat (map dot_space (split (lit ". ") (_clean_text text)))
                 = _clean_text text ++ lit ". ")
    by (apply (split_concat (lit ". ")); discriminate).
  rewrite fold_no_overflow.
  - cbn [app]. rewrite Hcat. unfold flush, _clean_text.
    rewrite strip_dot_space.
    destruct (strip _); reflexivity.
  - cbn [app]. rewrite Hcat, length_app. simpl. lia.
Qed.

Lemma short_text_one_chunk_with_full_stop_witness :
  length (_clean_text (lit "  Bail   is a right  ")) <= chunk_size new_processor /\
  _create_chunks new_processor (_clean_text (lit "  Bail   is a right  ")) =
  [lit "Bail is a right."].
Proof.
  assert (H : length (_clean_text (lit "  Bail   is a right  "))
              <= chunk_size new_processor)
    by (vm_compute; repeat constructor).
  split; [exact H |].
  rewrite (short_text_one_chunk_with_full_stop new_processor _ H).
  reflexivity.
Defined.

(** X4.  The word list of every chunk after the first begins with the
    overlap words of the chunk before it, the last [chunk_overlap] words of
    that chunk.  When the chunk before has no more than [chunk_overlap]
    words, the later chunk therefore begins with all the words of the
    earlier one. *)
Theorem next_chunk_repeats_overlap_words
  (p : DocumentProcessor) (text : str) before c1 c2 after :
  _create_chunks p text = before ++ c1 :: c2 :: after ->
  (exists rest,
      words c2 = py_tail (chunk_overlap p) (words c1) ++ rest) /\
  (length (words c1) <= chunk_overlap p ->
   exists rest, words c2 = words c1 ++ rest).
Proof.
  intros Heq.
  destruct (create_chunks_linked p _ _ _ _ _ Heq) as (fresh & _ & ->).
  assert (Hw : words (strip (seed p c1 ++ lit " " ++ fresh)) =
               py_tail (chunk_overlap p) (words c1) ++ words fresh).
  { rewrite words_strip. unfold seed. apply words_join_space.
    apply py_tail_Forall, words_are_words. }
  split; [exists (words fresh); exact Hw |].
  intros Hlen. exists (words fresh). rewrite Hw. f_equal.
  unfold py_tail. destruct (chunk_overlap p =? 0); [reflexivity |].
  replace (length (words c1) - chunk_overlap p) with 0 by lia. reflexivity.
Qed.

Lemma next_chunk_repeats_overlap_words_witness :
  let text := lit "Bail is a right. Jail is the exception. Courts decide." in
  _create_chunks small_processor text =
  [lit "Bail is a right."; lit "Bail is a right. Jail is the exception";
   lit "right. Jail is the exception Courts decide."] /\
  exists rest,
    words (lit "Bail is a right. Jail is the exception") =
    words (lit "Bail is a right.") ++ rest.
Proof.
  intros text.
  assert (H : _create_chunks small_processor text =
              [] ++ lit "Bail is a right."
                 :: lit "Bail is a right. Jail is the exception"
                 :: [lit "right. Jail is the exception Courts decide."])
    by (vm_compute; reflexivity).
  split; [exact H |].
  apply (proj2 (next_chunk_repeats_overlap_words small_processor text _ _ _ _ H)).
  vm_compute. repeat constructor.
Defined.

(** X5.  No sentence is lost: for every processor and text, each piece that
    [split] cuts out of the text occurs, stripped, in at least one of the
    chunks. *)
Theorem every_sentence_in_a_chunk (p : DocumentProcessor) (text s : str) :
  In s (split (lit ". ") text) ->
  exists c, In c (_create_chunks p text) /\ contains (strip s) c = true.
Proof.
  intros Hin.
  destruct (create_chunks_state p text) as (chunks & cur & _ & -> & _ & Hkept).
  destruct (Hkept s Hin) as [(c & Hc & Hocc) | Hocc]; cbn [fst snd] in *.
  - exists c. split; [apply in_or_app; left; exact Hc |].
    apply contains_infix. exact Hocc.
  - exists (strip cur). split; [apply in_or_app; right; left; reflexivity |].
    apply contains_infix. apply infix_strip. exact Hocc.
Qed.

Lemma every_sentence_in_a_chunk_witness :
  let text := lit "Bail is a right. Jail is the exception. Courts decide." in
  In (lit "Jail is the exception") (split (lit ". ") text) /\
  exists c, In c (_create_chunks small_processor text) /\
            contains (lit "Jail is the exception") c = true.
Proof.
  intros text.
  assert (H : In (lit "Jail is the exception") (split (lit ". ") text))
    by (vm_compute; right; left; reflexivity).
  split; [exact H |].
  exact (every_sentence_in_a_chunk small_processor text _ H).
Defined.

Lemma tag_from_scores (text : str) :
  exists d ds,
    domain_scores (lower text) = d :: ds /\
    In (py_max snd d ds) (domain_scores (lower text)) /\
    (forall x, In x (domain_scores (lower text)) ->
               snd x <= snd (py_max snd d ds)) /\
    _identify_legal_domain text =
      if 0 <? snd (py_max snd d ds) then fst (py_max snd d ds)
      else lit "general".
Proof.
  eexists _, _. split; [reflexivity |].
  match goal with |- In (py_max snd ?d ?ds) _ /\ _ =>
    destruct (py_max_first_max snd d ds) as (i & Hi & Hmax) end.
  split; [exact (nth_error_In _ _ Hi) |].
  split; [| reflexivity].
  intros x Hx. destruct (In_nth_error _ _ Hx) as [j Hj].
  exact (proj1 (Hmax j x Hj)).
Qed.

(** X6.  The tag is always one of the six labels. *)
Theorem identify_legal_domain_labels (text : str) :
  In (_identify_legal_domain text)
     [lit "constitutional"; lit "criminal"; lit "civil"; lit "family";
      lit "corporate"; lit "general"].
Proof.
  destruct (tag_from_scores text) as (d & ds & _ & Hin & _ & ->).
  destruct (0 <? _).
  - apply (in_map fst) in Hin. rewrite domain_scores_names in Hin.
    simpl in Hin. simpl. tauto.
  - simpl. tauto.
Qed.

Lemma contains_app (needle a t b : str) :
  contains needle t = true -> contains needle (a ++ t ++ b) = true.
Proof.
  rewrite !contains_infix. intros (x & y & ->).
  exists (a ++ x), (y ++ b). repeat rewrite <- app_assoc. reflexivity.
Qed.

Lemma keyword_score_app (keywords : list str) (a t b : str) :
  keyword_score keywords t <= keyword_score keywords (a ++ t ++ b).
Proof.
  unfold keyword_score. induction keywords as [| k ks IH]; [apply Nat.le_refl |].
  simpl. destruct (contains k t) eqn:Hk.
  - rewrite (contains_app k a t b Hk). lia.
  - destruct (contains k (a ++ t ++ b)); lia.
Qed.

(** X7.  Text around a passage cannot take its keywords away: if a text is
    tagged [general], so is every contiguous part of it.  Put the other way,
    a passage with a legal domain keeps a legal domain (not always the same
    one) wherever it is embedded. *)
Theorem general_text_has_general_parts (a t b : str) :
  _identify_legal_domain (a ++ t ++ b) = lit "general" ->
  _identify_legal_domain t = lit "general".
Proof.
  destruct (tag_from_scores (a ++ t ++ b)) as (d & ds & _ & Hin & Hmax & ->).
  destruct (tag_from_scores t) as (d' & ds' & _ & Hin' & _ & ->).
  destruct (0 <? snd (py_max snd d ds)) eqn:Hbig.
  { intros Heq. exfalso.
    exact (domain_name_not_general _ _ Hin Heq). }
  intros _. apply Nat.ltb_ge in Hbig.
  destruct (0 <? snd (py_max snd d' ds')) eqn:Hsmall; [| reflexivity].
  apply Nat.ltb_lt in Hsmall. exfalso.
  unfold domain_scores in Hin'. apply in_map_iff in Hin'.
  destruct Hin' as ([name kws] & Heq & Hkw). rewrite <- Heq in Hsmall.
  cbn [snd] in Hsmall.
  assert (Hin2 : In (name, keyword_score kws (lower (a ++ t ++ b)))
                    (domain_scores (lower (a ++ t ++ b)))).
  { unfold domain_scores. apply in_map_iff. exists (name, kws). auto. }
  specialize (Hmax _ Hin2). cbn [snd] in Hmax.
  pose proof (keyword_score_app kws (lower a) (lower t) (lower b)) as Hle.
  unfold lower in *. rewrite !map_app in Hmax. lia.
Qed.

Lemma general_text_has_general_parts_witness :
  _identify_legal_domain
    (lit "The weather " ++ lit "is fine" ++ lit " today") = lit "general" /\
  _identify_legal_domain (lit "is fine") = lit "general".
Proof.
  assert (H : _identify_legal_domain
                (lit "The weather " ++ lit "is fine" ++ lit " today")
              = lit "general") by (vm_compute; reflexivity).
  split; [exact H |].
  exact (general_text_has_general_parts _ _ _ H).
Defined.

End MoreChunkerTheorems.

(* ================================================================== *)
(** * Further properties of the retriever *)
(* ================================================================== *)

Section MoreRetrieval.

Import Rag RagSpec Samples.
Local Open Scope Q_scope.

Lemma zip3_length_min {A B C : Type} (a : list A) (b : list B) (c : list C) :
  length (zip3 a b c) = Nat.min (length a) (Nat.min (length b) (length c)).
Proof.
  revert b c. induction a as [| x a IH]; intros [| y b] [| z c]; simpl;
    try reflexivity; try (rewrite Nat.min_0_r; reflexivity).
  rewrite IH. reflexivity.
Qed.

Lemma zip3_first {A B C : Type} (a : list A) (b : list B) (c : list C) :
  map (fun t => fst (fst t)) (zip3 a b c) = firstn (length (zip3 a b c)) a.
Proof.
  revert b c. induction a as [| x a IH]; intros [| y b] [| z c]; simpl;
    try reflexivity.
  rewrite IH. reflexivity.
Qed.

Lemma zip3_second {A B C : Type} (a : list A) (b : list B) (c : list C) :
  map (fun t => snd (fst t)) (zip3 a b c) = firstn (length (zip3 a b c)) b.
Proof.
  revert b c. induction a as [| x a IH]; intros [| y b] [| z c]; simpl;
    try reflexivity.
  rewrite IH. reflexivity.
Qed.

Lemma map_enumerate_map {A B C : Type} (f : nat * A -> B) (g : B -> C)
  (h : A -> C) :
  (forall i a, g (f (i, a)) = h a) ->
  forall l start, map g (map f (combine (seq start (length l)) l)) = map h l.
Proof.
  intros Hg. induction l as [| a l IH]; intros start; [reflexivity |].
  simpl. rewrite Hg, IH. reflexivity.
Qed.

Lemma map_enumerate_index {A B C : Type} (f : nat * A -> B) (g : B -> C)
  (h : nat -> C) :
  (forall i a, g (f (i, a)) = h i) ->
  forall l start,
    map g (map f (combine (seq start (length l)) l)) =
    map h (seq start (length l)).
Proof.
  intros Hg. induction l as [| a l IH]; intros start; [reflexivity |].
  simpl. rewrite Hg, IH. reflexivity.
Qed.

(** The entries made from the first lists of an answer of the index. *)
Lemma format_results_shape (results : QueryResult) docs metas dists r1 r2 r3 :
  documents results = docs :: r1 ->
  metadatas results = metas :: r2 ->
  distances results = dists :: r3 ->
  exists out,
    format_results results = Ok out /\
    length out = Nat.min (length docs) (Nat.min (length metas) (length dists)) /\
    map content out = map Some (firstn (length out) docs) /\
    map metadata out = map Some (firstn (length out) metas) /\
    map rank out = map Some (seq 1 (length out)) /\
    Forall (fun doc => is_retrieval_result doc = true) out.
Proof.
  intros Hdocs Hmetas Hdists. unfold format_results.
  rewrite Hdocs, Hmetas, Hdists. cbn [index0 bind].
  destruct docs as [| text0 docs'].
  { exists []. repeat split; constructor. }
  set (docs := text0 :: docs').
  eexists. split; [reflexivity |].
  assert (Hlen : length (map (fun '(i, (doc, meta, distance)) =>
                     {| content := Some doc; metadata := Some meta;
                        similarity_score := Some (Num (1 - distance));
                        rank := Some (i + 1)%nat |})
                   (enumerate (zip3 docs metas dists)))
                 = length (zip3 docs metas dists)).
  { unfold enumerate. rewrite length_map, length_combine, length_seq.
    apply Nat.min_id. }
  rewrite Hlen. split; [apply zip3_length_min |]. unfold enumerate.
  split; [| split; [| split]].
  - rewrite (map_enumerate_map _ content (fun t => Some (fst (fst t)))).
    + rewrite <- zip3_first, map_map. reflexivity.
    + intros i [[? ?] ?]. reflexivity.
  - rewrite (map_enumerate_map _ metadata (fun t => Some (snd (fst t)))).
    + rewrite <- zip3_second, map_map. reflexivity.
    + intros i [[? ?] ?]. reflexivity.
  - rewrite (map_enumerate_index _ rank (fun i => Some (S i))).
    + rewrite <- seq_shift, map_map. reflexivity.
    + intros i [[? ?] ?]. cbn [rank]. rewrite Nat.add_1_r. reflexivity.
  - apply Forall_forall. intros doc Hin. apply in_map_iff in Hin.
    destruct Hin as ([i [[? ?] ?]] & <- & _). reflexivity.
Qed.

(** X8.  When the index answers the search, the entries returned follow its
    first lists: there are as many entries as the shortest of the three
    lists has items; their contents and metadata are the first documents and
    metadata of the index, in the same order; their ranks are 1, 2, ...; and
    every entry has content, metadata and a numeric score. *)
Theorem retrieve_follows_index
  (r : LegalRetriever) (query : str) (k : nat)
  (results : QueryResult) docs metas dists r1 r2 r3 :
  similarity_search (vector_store r) query k None = Ok results ->
  documents results = docs :: r1 ->
  metadatas results = metas :: r2 ->
  distances results = dists :: r3 ->
  exists out,
    retrieve_relevant_docs r query k = Ok out /\
    length out = Nat.min (length docs) (Nat.min (length metas) (length dists)) /\
    map content out = map Some (firstn (length out) docs) /\
    map metadata out = map Some (firstn (length out) metas) /\
    map rank out = map Some (seq 1 (length out)) /\
    Forall (fun doc => is_retrieval_result doc = true) out.
Proof.
  intros Hsearch Hdocs Hmetas Hdists.
  destruct (format_results_shape results docs metas dists r1 r2 r3
              Hdocs Hmetas Hdists) as (out & Hout & Hrest).
  exists out. split; [| exact Hrest].
  unfold retrieve_relevant_docs. rewrite Hsearch. cbn [bind].
  rewrite Hout. reflexivity.
Qed.

(** Two documents but a single distance: one entry comes back. *)
Lemma retrieve_follows_index_witness :
  exists out,
    retrieve_relevant_docs ragged_retriever (lit "What is Article 14?") 5
    = Ok out /\
    length out = 1%nat /\
    map content out = [Some (lit "Article 14 guarantees equality before law")].
Proof.
  destruct (retrieve_follows_index
              ragged_retriever (lit "What is Article 14?") 5 _ _ _ _ [] [] []
              eq_refl eq_refl eq_refl eq_refl)
    as (out & Hout & Hlen & Hcontent & _).
  exists out. split; [exact Hout |]. split; [exact Hlen |].
  rewrite Hcontent, Hlen. reflexivity.
Defined.

(** X9.  An answer of the index that lacks a first list makes the retriever
    return the empty list: no list of documents at all, or documents
    without a list of metadata or without a list of distances (the
    [IndexError] is caught). *)
Theorem retrieve_malformed_answer
  (r : LegalRetriever) (query : str) (k : nat) (results : QueryResult) :
  similarity_search (vector_store r) query k None = Ok results ->
  (documents results = [] \/
   exists d ds rest,
     documents results = (d :: ds) :: rest /\
     (metadatas results = [] \/ distances results = [])) ->
  retrieve_relevant_docs r query k = Ok [].
Proof.
  intros Hsearch Hbad. unfold retrieve_relevant_docs, format_results.
  rewrite Hsearch. cbn [bind].
  destruct Hbad as [-> | (d & ds & rest & -> & [-> | Hd])]; try reflexivity.
  cbn [index0 bind]. destruct (metadatas results); [reflexivity |].
  cbn [index0 bind]. rewrite Hd. reflexivity.
Qed.

Lemma retrieve_malformed_answer_witness :
  retrieve_relevant_docs broken_retriever (lit "What is Article 14?") 5 = Ok [].
Proof.
  apply (retrieve_malformed_answer broken_retriever _ 5 _ eq_refl).
  right. eexists _, _, _. split; [reflexivity |]. right. reflexivity.
Defined.

(** X10.  With a domain that is not empty, [filter_by_legal_domain] never
    raises; it searches 10 neighbours under the filter
    [{"domain": legal_domain}], and the metadata of every entry it returns
    is one that the index returned for that search.  So whatever holds of
    all the metadata in the answer of the index (such as carrying the
    domain asked for) holds of all the entries returned. *)
Theorem filter_entries_carry_index_metadata
  (P : pydict -> Prop) (r : LegalRetriever) (query legal_domain : str) :
  legal_domain <> [] ->
  (forall results metas rest,
      similarity_search (vector_store r) query 10
        (Some [("domain"%string, MStr legal_domain)]) = Ok results ->
      metadatas results = metas :: rest ->
      Forall P metas) ->
  exists out,
    filter_by_legal_domain r query (Some legal_domain) = Ok out /\
    Forall (fun doc => exists m, metadata doc = Some m /\ P m) out.
Proof.
  intros Hne Hindex. unfold filter_by_legal_domain.
  destruct legal_domain as [| c d]; [congruence |].
  change (where_of_domain (Some (c :: d)))
    with (Some [("domain"%string, MStr (c :: d))]).
  destruct (similarity_search (vector_store r) query 10
              (Some [("domain"%string, MStr (c :: d))]))
    as [results | e] eqn:Hsearch; cbn [bind try_except];
    [| exists []; split; [reflexivity | constructor]].
  unfold format_results.
  destruct (documents results) as [| docs r1]; cbn [index0 bind try_except];
    [exists []; split; [reflexivity | constructor] |].
  destruct docs as [| text0 docs'];
    [exists []; split; [reflexivity | constructor] |].
  destruct (metadatas results) as [| metas r2] eqn:Hmetas;
    cbn [index0 bind try_except];
    [exists []; split; [reflexivity | constructor] |].
  destruct (distances results) as [| dists r3]; cbn [index0 bind try_except];
    [exists []; split; [reflexivity | constructor] |].
  eexists. split; [reflexivity |].
  specialize (Hindex results metas r2 eq_refl Hmetas).
  apply Forall_forall. intros doc Hin. apply in_map_iff in Hin.
  destruct Hin as ([i [[text meta] dist]] & <- & Hin).
  exists meta. split; [reflexivity |].
  apply in_combine_r in Hin. destruct (In_nth_error _ _ Hin) as [j Hj].
  apply zip3_nth in Hj. destruct Hj as (_ & Hm & _).
  rewrite Forall_forall in Hindex. apply Hindex. eapply nth_error_In, Hm.
Qed.

Lemma filter_entries_carry_index_metadata_witness :
  exists out,
    filter_by_legal_domain criminal_retriever (lit "What is bail?")
                           (Some (lit "criminal")) = Ok out /\
    Forall (fun doc => exists m,
                metadata doc = Some m /\
                dict_get m "domain" = Some (MStr (lit "criminal"))) out.
Proof.
  apply (filter_entries_carry_index_metadata
           (fun m => dict_get m "domain" = Some (MStr (lit "criminal")))).
  - discriminate.
  - intros results metas rest Hsearch Hmetas.
    injection Hsearch as <-. injection Hmetas as <- _.
    repeat constructor.
Defined.

(** X18.  For every option of the domain select box of the web page: the
    option "All" leads to the plain search for 5 neighbours; every other
    option leads to the filtered search for its lower-cased name, and that
    name is one of the domain names that the ingestion writes into the
    metadata of chunks. *)
Theorem app_domain_options_match_tags (r : LegalRetriever) (query : str) :
  Forall (fun option =>
            (option = lit "All" /\
             app_relevant_docs r query option = retrieve_relevant_docs r query 5)
            \/
            (In (lower option) (map fst Ingestion.domain_keywords) /\
             app_relevant_docs r query option =
             filter_by_legal_domain r query (Some (lower option))))
         domain_options.
Proof.
  repeat constructor;
    try (left; split; reflexivity);
    right; (split; [simpl; tauto | reflexivity]).
Qed.

End MoreRetrieval.

(* ================================================================== *)
(** * Further properties of the response generator *)
(* ================================================================== *)

Section MoreGeneration.

Import Rag RagSpec Samples.
Local Open Scope Q_scope.

Lemma format_results_well_formed (results : QueryResult) (out : list Doc) :
  format_results results = Ok out ->
  Forall (fun doc => is_retrieval_result doc = true) out.
Proof.
  unfold format_results.
  destruct (documents results) as [| docs r1]; cbn [index0 bind]; [discriminate |].
  destruct docs as [| text docs']; [intros H; injection H as <-; constructor |].
  destruct (metadatas results) as [| metas r2]; cbn [index0 bind]; [discriminate |].
  destruct (distances results) as [| dists r3]; cbn [index0 bind]; [discriminate |].
  intros H. injection H as <-.
  apply Forall_forall. intros doc Hin. apply in_map_iff in Hin.
  destruct Hin as ([i [[? ?] ?]] & <- & _). reflexivity.
Qed.

(** Whatever the retriever returns is a list of well-formed entries. *)
Lemma retrieve_well_formed (r : LegalRetriever) (query : str) (k : nat) out :
  retrieve_relevant_docs r query k = Ok out ->
  Forall (fun doc => is_retrieval_result doc = true) out.
Proof.
  unfold retrieve_relevant_docs.
  destruct (similarity_search (vector_store r) query k None) as [results | e];
    cbn [bind try_except]; [| intros H; injection H as <-; constructor].
  destruct (format_results results) as [out' | e] eqn:Hf; cbn [try_except];
    intros H; injection H as <-; [| constructor].
  exact (format_results_well_formed results out' Hf).
Qed.

Lemma retrieve_total (r : LegalRetriever) (query : str) (k : nat) :
  exists out, retrieve_relevant_docs r query k = Ok out.
Proof.
  unfold retrieve_relevant_docs.
  destruct (similarity_search (vector_store r) query k None) as [results | e];
    cbn [bind try_except]; [| eexists; reflexivity].
  destruct (format_results results); cbn [try_except]; eexists; reflexivity.
Qed.

Lemma collect_sources_metadata (relevant_docs : list Doc) (srcs : list pydict) :
  collect_sources relevant_docs = Ok srcs ->
  map Some srcs = map metadata relevant_docs.
Proof.
  unfold collect_sources. revert srcs.
  induction relevant_docs as [| doc rest IH]; intros srcs H.
  - injection H as <-. reflexivity.
  - cbn [mapM] in H.
    destruct (metadata doc) as [m |] eqn:Hm; cbn [getitem bind] in H;
      [| discriminate].
    destruct (mapM _ rest) as [ms | e]; cbn [bind] in H; [| discriminate].
    injection H as <-. cbn [map]. rewrite (IH ms eq_refl), Hm. reflexivity.
Qed.

(** The two ways in which [generate_legal_response] ends. *)
Lemma generate_cases (g : LegalResponseGenerator) (query : str)
  (relevant_docs : list Doc) :
  (generate_legal_response g query relevant_docs = Ok degraded_answer /\
   exists e, generate_body g query relevant_docs = Raise e) \/
  exists context text srcs c,
    _create_context relevant_docs = Ok context /\
    select_response g query (_create_legal_prompt query context) relevant_docs
      = Ok text /\
    collect_sources relevant_docs = Ok srcs /\
    _calculate_confidence relevant_docs = Ok c /\
    generate_legal_response g query relevant_docs =
    Ok {| response := text; sources := srcs; confidence := c |}.
Proof.
  unfold generate_legal_response, generate_body.
  destruct (_create_context relevant_docs) as [context | e1];
    cbn [bind try_except]; [| left; split; [| eexists]; reflexivity].
  destruct (select_response g query _ relevant_docs) as [text | e2] eqn:Htext;
    cbn [bind try_except]; [| left; split; [| eexists]; reflexivity].
  destruct (collect_sources relevant_docs) as [srcs | e3];
    cbn [bind try_except]; [| left; split; [| eexists]; reflexivity].
  destruct (_calculate_confidence relevant_docs) as [c | e4];
    cbn [bind try_except]; [| left; split; [| eexists]; reflexivity].
  right. exists context, text, srcs, c.
  split; [reflexivity |]. split; [exact Htext |]. repeat split; reflexivity.
Qed.

(** X11.  Every answer is either the fixed apology answer or carries, as
    its sources, the metadata of every entry supplied, in the same order:
    as many sources as entries.  This does not depend on whether the model
    or the rule-based responder wrote the response. *)
Theorem answer_has_all_sources_or_apologizes
  (g : LegalResponseGenerator) (query : str) (relevant_docs : list Doc) :
  exists answer,
    generate_legal_response g query relevant_docs = Ok answer /\
    (answer = degraded_answer \/
     (map Some (sources answer) = map metadata relevant_docs /\
      length (sources answer) = length relevant_docs)).
Proof.
  destruct (generate_cases g query relevant_docs)
    as [[Hdeg _] | (context & text & srcs & c & _ & _ & Hsrcs & _ & Hanswer)].
  - exists degraded_answer. split; [exact Hdeg | left; reflexivity].
  - eexists. split; [exact Hanswer |]. right. cbn [sources].
    pose proof (collect_sources_metadata _ _ Hsrcs) as Hmap.
    split; [exact Hmap |].
    apply (f_equal (@length (option pydict))) in Hmap.
    rewrite !length_map in Hmap. exact Hmap.
Qed.

Lemma mapM_raises {A B : Type} (f : A -> result B) (l : list A) (a : A) :
  In a l -> (exists e, f a = Raise e) -> exists e, mapM f l = Raise e.
Proof.
  intros Hin Hraise. induction l as [| x l IH]; [destruct Hin |].
  cbn [mapM]. destruct (f x) as [b | e] eqn:Hx; cbn [bind];
    [| eexists; reflexivity].
  destruct Hin as [-> | Hin].
  - destruct Hraise as [e He]. congruence.
  - destruct (IH Hin) as [e He]. rewrite He. eexists; reflexivity.
Qed.

(** X12.  Missing keys.  An entry without ['metadata'], at any position of
    the list, or an entry without ['content'] among the first three, makes
    [generate_legal_response] return the fixed apology answer. *)
Theorem missing_key_gives_apology
  (g : LegalResponseGenerator) (query : str) (relevant_docs : list Doc) :
  ((exists doc, In doc relevant_docs /\ metadata doc = None) \/
   (exists doc, In doc (py_prefix 3 relevant_docs) /\ content doc = None)) ->
  generate_legal_response g query relevant_docs = Ok degraded_answer.
Proof.
  intros Hmissing.
  destruct (generate_cases g query relevant_docs)
    as [[Hdeg _] | (context & text & srcs & c & Hctx & _ & Hsrcs & _ & _)];
    [exact Hdeg | exfalso].
  destruct Hmissing as [(doc & Hin & Hnone) | (doc & Hin & Hnone)].
  - pose proof (collect_sources_metadata _ _ Hsrcs) as Hmap.
    apply (in_map metadata) in Hin. rewrite <- Hmap, Hnone in Hin.
    apply in_map_iff in Hin. destruct Hin as (? & ? & _). discriminate.
  - unfold _create_context in Hctx.
    match type of Hctx with
    | context [mapM ?f ?l] =>
      destruct (mapM_raises f l doc Hin) as [e He]
    end.
    { cbv beta. rewrite Hnone. eexists. reflexivity. }
    rewrite He in Hctx. discriminate.
Qed.

Lemma missing_key_gives_apology_witness :
  generate_legal_response echo_generator (lit "What is bail?")
                          [doc_bail; doc_without_content] = Ok degraded_answer.
Proof.
  apply missing_key_gives_apology. right.
  exists doc_without_content. split; [right; left |]; reflexivity.
Defined.

Lemma py_sum_numbers (relevant_docs : list Doc) :
  Forall (fun doc => similarity_score doc <> Some NotNum) relevant_docs ->
  forall acc,
    py_sum acc (map score_or_zero relevant_docs) =
    Ok (fold_left Qplus (map score_of relevant_docs) acc).
Proof.
  induction 1 as [| doc rest Hdoc _ IH]; intros acc; [reflexivity |].
  assert (Hs : score_or_zero doc = Num (score_of doc)).
  { unfold score_or_zero, score_of.
    destruct (similarity_score doc) as [[q |] |]; congruence. }
  cbn [map]. rewrite Hs. cbn [py_sum fold_left]. apply IH.
Qed.

Lemma py_sum_not_number (relevant_docs : list Doc) (doc : Doc) :
  In doc relevant_docs -> similarity_score doc = Some NotNum ->
  forall acc, py_sum acc (map score_or_zero relevant_docs) = Raise TypeError.
Proof.
  intros Hin Hbad. induction relevant_docs as [| d rest IH]; [destruct Hin |].
  intros acc. cbn [map py_sum]. unfold score_or_zero at 1.
  destruct Hin as [-> | Hin].
  - rewrite Hbad. reflexivity.
  - destruct (similarity_score d) as [[q |] |]; try reflexivity; apply IH, Hin.
Qed.

Lemma confidence_of_numbers (doc : Doc) (rest : list Doc) :
  Forall (fun d => similarity_score d <> Some NotNum) (doc :: rest) ->
  exists c, _calculate_confidence (doc :: rest) = Ok c /\
            c == mean (map score_of (doc :: rest)).
Proof.
  intros Hnum. unfold _calculate_confidence. cbn [map].
  change (score_or_zero doc :: map score_or_zero rest)
    with (map score_or_zero (doc :: rest)).
  rewrite (py_sum_numbers _ Hnum). cbn [bind].
  eexists. split; [reflexivity |].
  unfold mean. rewrite fold_left_sum, Qplus_0_l.
  cbn [map length]. rewrite !length_map. reflexivity.
Qed.

Lemma confidence_not_number (doc : Doc) (rest : list Doc) (bad : Doc) :
  In bad (doc :: rest) -> similarity_score bad = Some NotNum ->
  _calculate_confidence (doc :: rest) = Raise TypeError.
Proof.
  intros Hin Hbad. unfold _calculate_confidence. cbn [map].
  change (score_or_zero doc :: map score_or_zero rest)
    with (map score_or_zero (doc :: rest)).
  rewrite (py_sum_not_number _ bad Hin Hbad). reflexivity.
Qed.

Lemma sum_scores_between (lo hi : Q) (scores : list Q) :
  Forall (fun q => lo <= q <= hi) scores ->
  lo * inject_Z (Z.of_nat (length scores)) <= sum_scores scores /\
  sum_scores scores <= hi * inject_Z (Z.of_nat (length scores)).
Proof.
  induction 1 as [| q rest Hq _ IH].
  - cbn [length sum_scores fold_right]. change (inject_Z (Z.of_nat 0)) with 0.
    rewrite !Qmult_0_r. split; apply Qle_refl.
  - cbn [sum_scores fold_right length]. fold (sum_scores rest).
    rewrite Nat2Z.inj_succ. unfold Z.succ. rewrite inject_Z_plus.
    change (inject_Z 1) with 1.
    rewrite !Qmult_plus_distr_r, !Qmult_1_r.
    destruct IH as [IHlo IHhi]. destruct Hq as [Hqlo Hqhi].
    set (n := inject_Z (Z.of_nat (length rest))) in *.
    set (a := lo * n) in *. set (b := hi * n) in *.
    split; lra.
Qed.

(** The mean of numbers between two bounds lies between the bounds. *)
Lemma mean_between (lo hi : Q) (scores : list Q) :
  scores <> [] ->
  Forall (fun q => lo <= q <= hi) scores ->
  lo <= mean scores <= hi.
Proof.
  intros Hne Hall. destruct (sum_scores_between lo hi scores Hall) as [Hlo Hhi].
  assert (Hpos : 0 < inject_Z (Z.of_nat (length scores))).
  { change 0 with (inject_Z 0). rewrite <- Zlt_Qlt.
    destruct scores; [congruence | simpl; lia]. }
  unfold mean. split.
  - apply Qle_shift_div_l; [exact Hpos | exact Hlo].
  - apply Qle_shift_div_r; [exact Hpos | exact Hhi].
Qed.

(** X13.  [_calculate_confidence] on entries whose numeric scores are at
    most 1000000 in absolute value, far inside the range of the floats.  On
    the empty list it returns 0.  On a list that is not empty it raises
    [TypeError] when the score of some entry is not a number; otherwise it
    returns the sum of the scores divided by the number of entries, an
    entry without the key ['similarity_score'] counting as 0, and the value
    returned lies within the bound of the scores. *)
Theorem calculate_confidence_cases (relevant_docs : list Doc) :
  Forall (fun doc => moderate (score_of doc)) relevant_docs ->
  (relevant_docs = [] -> _calculate_confidence relevant_docs = Ok 0) /\
  (relevant_docs <> [] ->
   (exists doc, In doc relevant_docs /\ similarity_score doc = Some NotNum) ->
   _calculate_confidence relevant_docs = Raise TypeError) /\
  (relevant_docs <> [] ->
   Forall (fun doc => similarity_score doc <> Some NotNum) relevant_docs ->
   exists c, _calculate_confidence relevant_docs = Ok c /\
             c == mean (map score_of relevant_docs) /\
             moderate c).
Proof.
  intros Hmod. split; [intros ->; reflexivity |].
  destruct relevant_docs as [| doc rest]; [split; congruence |].
  split.
  - intros _ (bad & Hin & Hbad). exact (confidence_not_number _ _ bad Hin Hbad).
  - intros _ Hnum.
    destruct (confidence_of_numbers _ _ Hnum) as (c & Hc & Heq).
    exists c. split; [exact Hc |]. split; [exact Heq |].
    assert (Hm : - inject_Z 1000000 <= mean (map score_of (doc :: rest))
                 <= inject_Z 1000000).
    { apply mean_between; [discriminate |].
      rewrite Forall_map. exact Hmod. }
    unfold moderate. rewrite Heq. exact Hm.
Qed.

Lemma calculate_confidence_cases_witness :
  Forall (fun doc => moderate (score_of doc)) [doc_unscored; doc_bail] /\
  exists c, _calculate_confidence [doc_unscored; doc_bail] = Ok c /\
            c == 35 # 100.
Proof.
  assert (Hmod : Forall (fun doc => moderate (score_of doc))
                        [doc_unscored; doc_bail]).
  { constructor; [| constructor; [| constructor]];
      vm_compute; split; discriminate. }
  split; [exact Hmod |].
  destruct (calculate_confidence_cases [doc_unscored; doc_bail] Hmod)
    as (_ & _ & Hmean).
  destruct Hmean as (c & Hc & Heq & _); [discriminate | |].
  - constructor; [| constructor; [| constructor]]; discriminate.
  - exists c. split; [exact Hc |]. rewrite Heq. reflexivity.
Defined.

Lemma sum_scores_bounds (scores : list Q) :
  Forall (fun q => 0 <= q <= 1) scores ->
  0 <= sum_scores scores <= inject_Z (Z.of_nat (length scores)).
Proof.
  induction 1 as [| q rest Hq _ IH].
  - simpl. split; apply Qle_refl.
  - cbn [sum_scores fold_right length]. fold (sum_scores rest).
    rewrite Nat2Z.inj_succ. unfold Z.succ. rewrite inject_Z_plus.
    change (inject_Z 1) with 1. lra.
Qed.

Lemma mean_bounds (scores : list Q) :
  scores <> [] ->
  Forall (fun q => 0 <= q <= 1) scores ->
  0 <= mean scores <= 1.
Proof.
  intros Hne Hall. destruct (sum_scores_bounds scores Hall) as [Hlo Hhi].
  assert (Hpos : 0 < inject_Z (Z.of_nat (length scores))).
  { change 0 with (inject_Z 0). rewrite <- Zlt_Qlt.
    destruct scores; [congruence | simpl; lia]. }
  unfold mean. split.
  - apply Qle_shift_div_l; [exact Hpos | lra].
  - apply Qle_shift_div_r; [exact Hpos | lra].
Qed.

(** X14.  When every numeric score among the entries lies between 0 and 1,
    the confidence of the answer lies between 0 and 1, whatever else the
    entries hold and whichever way the response was produced. *)
Theorem confidence_between_0_and_1
  (g : LegalResponseGenerator) (query : str) (relevant_docs : list Doc) :
  Forall (fun doc => forall q, similarity_score doc = Some (Num q) ->
                               0 <= q <= 1) relevant_docs ->
  exists answer,
    generate_legal_response g query relevant_docs = Ok answer /\
    0 <= confidence answer <= 1.
Proof.
  intros Hscores.
  destruct (generate_cases g query relevant_docs)
    as [[Hdeg _] | (context & text & srcs & c & _ & _ & _ & Hc & Hanswer)].
  - exists degraded_answer. split; [exact Hdeg |]. simpl. lra.
  - eexists. split; [exact Hanswer |]. cbn [confidence].
    destruct relevant_docs as [| doc rest].
    { simpl in Hc. injection Hc as <-. lra. }
    assert (Hnum : Forall (fun d => similarity_score d <> Some NotNum)
                          (doc :: rest)).
    { apply Forall_forall. intros d Hin Hd.
      rewrite (confidence_not_number _ _ d Hin Hd) in Hc. discriminate. }
    destruct (confidence_of_numbers _ _ Hnum) as (c' & Hc' & Heq).
    rewrite Hc in Hc'. injection Hc' as <-. rewrite Heq.
    apply mean_bounds; [discriminate |].
    apply Forall_forall. intros q Hq. apply in_map_iff in Hq.
    destruct Hq as (d & <- & Hin).
    rewrite Forall_forall in Hscores. specialize (Hscores d Hin).
    unfold score_of. destruct (similarity_score d) as [[s |] |];
      [apply Hscores; reflexivity | lra | lra].
Qed.

Lemma confidence_between_0_and_1_witness :
  exists answer,
    generate_legal_response raising_generator (lit "What is bail?")
                            [doc_equality; doc_unscored] = Ok answer /\
    0 <= confidence answer <= 1.
Proof.
  apply confidence_between_0_and_1.
  constructor; [intros q H; injection H as <-; lra |].
  constructor; [intros q H; discriminate | constructor].
Defined.

End MoreGeneration.

Section ModelPathAndCallers.

Import Rag RagSpec Samples.
Local Open Scope Q_scope.

Lemma split_fuel_enough (sep : str) :
  sep <> [] ->
  forall f1 f2 t, (length t <= f1)%nat -> (length t <= f2)%nat ->
    split_fuel f1 sep t = split_fuel f2 sep t.
Proof.
  intros Hsep. induction f1 as [| f1 IH]; intros f2 t H1 H2.
  - destruct t; [| simpl in H1; lia]. destruct f2; reflexivity.
  - destruct t as [| c rest]; [destruct f2; reflexivity |].
    destruct f2 as [| f2]; [simpl in H2; lia |].
    cbn [split_fuel]. simpl in H1, H2.
    destruct (startswith sep (c :: rest)).
    + f_equal. apply IH; rewrite length_skipn;
        (destruct sep; [congruence | simpl; lia]).
    + f_equal. apply IH; lia.
Qed.

Lemma split_at_separator (sep rest : str) :
  sep <> [] -> split sep (sep ++ rest) = [] :: split sep rest.
Proof.
  intros Hsep. unfold split.
  destruct (sep ++ rest) as [| c t] eqn:Heq;
    [destruct sep; [congruence | discriminate] |].
  cbn [length split_fuel]. rewrite <- Heq, startswith_app.
  f_equal.
  assert (Hskip : skipn (length sep) (sep ++ rest) = rest).
  { rewrite skipn_app, skipn_all, Nat.sub_diag. reflexivity. }
  rewrite Hskip. apply split_fuel_enough; [exact Hsep | | apply Nat.le_refl].
  apply (f_equal (@length ascii)) in Heq. rewrite length_app in Heq.
  simpl in Heq. destruct sep; [congruence | simpl in Heq; lia].
Qed.

Lemma split_fuel_absent (sep : str) (fuel : nat) :
  forall t, contains sep t = false -> split_fuel fuel sep t = [t].
Proof.
  induction fuel as [| f IH]; intros t H; [reflexivity |].
  destruct t as [| c rest]; [reflexivity |].
  cbn [contains] in H. apply orb_false_iff in H. destruct H as [Hsw Hrest].
  cbn [split_fuel]. rewrite Hsw, (IH rest Hrest). reflexivity.
Qed.

(** [replace] removes a leading occurrence of a text that occurs nowhere
    else. *)
Lemma replace_leading (old rest : str) :
  old <> [] -> contains old rest = false ->
  replace old [] (old ++ rest) = rest.
Proof.
  intros Hold Habs. unfold replace.
  rewrite (split_at_separator old rest Hold).
  unfold split. rewrite (split_fuel_absent old _ rest Habs). reflexivity.
Qed.

Lemma prompt_not_nil (query context : str) :
  _create_legal_prompt query context <> [].
Proof. discriminate. Qed.

(** X15.  A model that echoes the prompt and then continues: when the
    prompt does not occur again in the continuation, the response is the
    continuation without the white space around it; nothing of the prompt is
    left in it. *)
Theorem model_echo_is_removed
  (pipeline : str -> nat -> result str) (query context continuation : str) :
  let prompt := _create_legal_prompt query context in
  pipeline prompt (length (words prompt) + 150)%nat
    = Ok (prompt ++ continuation) ->
  contains prompt continuation = false ->
  _generate_with_model pipeline prompt = Ok (strip continuation).
Proof.
  intros prompt Hcall Habs. unfold _generate_with_model.
  rewrite Hcall. cbn [bind try_except].
  rewrite (replace_leading prompt continuation (prompt_not_nil _ _) Habs).
  reflexivity.
Qed.

Lemma model_echo_is_removed_witness :
  _generate_with_model
    (fun prompt _ =>
       Ok (prompt ++ lit " Article 21 protects life and personal liberty."))
    (_create_legal_prompt (lit "What is bail?") [])
  = Ok (lit "Article 21 protects life and personal liberty.").
Proof.
  rewrite (model_echo_is_removed _ (lit "What is bail?") []
             (lit " Article 21 protects life and personal liberty.")).
  - reflexivity.
  - reflexivity.
  - vm_compute. reflexivity.
Defined.

Lemma str_of_nat_small (i : nat) :
  (i < 9)%nat -> length (str_of_nat (i + 1)) = 1%nat.
Proof.
  intros Hi. do 9 (destruct i as [| i]; [reflexivity |]). lia.
Qed.

Lemma numbered_item_length (i : nat) (doc : Doc) :
  (i < 9)%nat -> (length (numbered_item (i, doc)) <= 308)%nat.
Proof.
  intros Hi. unfold numbered_item. cbn [fst snd].
  repeat rewrite length_app. rewrite (str_of_nat_small i Hi).
  unfold py_prefix.
  assert (length (firstn 300 (content_of doc)) <= 300)%nat
    by (rewrite length_firstn; apply Nat.le_min_l).
  change (length (lit ". ")) with 2%nat.
  change (length (lit "...")) with 3%nat.
  change (length newline) with 1%nat. lia.
Qed.

(** X16.  The text of the rule-based responder is short whatever the
    entries hold: when it returns, its result has at most 830 characters
    (the header, two items of at most 308 characters, the disclaimer). *)
Theorem rule_based_response_is_short
  (query : str) (relevant_docs : list Doc) (text : str) :
  _generate_rule_based_response query relevant_docs = Ok text ->
  (length text <= 830)%nat.
Proof.
  unfold _generate_rule_based_response.
  destruct relevant_docs as [| d1 rest].
  { intros H. injection H as <-. vm_compute. repeat constructor. }
  assert (Hitems : forall items acc out,
             numbered_items acc items = Ok out ->
             out = acc ++ concat (map (fun item =>
                                         numbered_item (fst item, snd item))
                                      items)).
  { induction items as [| [i doc] items IH]; intros acc out H.
    - injection H as <-. simpl. rewrite app_nil_r. reflexivity.
    - cbn [numbered_items] in H.
      destruct (content doc) as [c |] eqn:Hc; cbn [getitem bind] in H;
        [| discriminate].
      rewrite (IH _ _ H). cbn [map concat fst snd].
      unfold numbered_item at 2, content_of. cbn [fst snd]. rewrite Hc.
      repeat rewrite <- app_assoc. reflexivity. }
  destruct (numbered_items rule_based_header
              (enumerate (py_prefix 2 (d1 :: rest)))) as [out | e] eqn:Hout;
    cbn [bind]; [| discriminate].
  intros H. injection H as <-. rewrite (Hitems _ _ _ Hout).
  repeat rewrite length_app.
  change (length rule_based_header) with 79%nat.
  change (length educational_disclaimer) with 135%nat.
  destruct rest as [| d2 rest']; cbn [py_prefix firstn enumerate length seq
                                      combine map concat fst snd].
  - rewrite length_app. pose proof (numbered_item_length 0 d1). simpl length at 2.
    lia.
  - repeat rewrite length_app.
    pose proof (numbered_item_length 0 d1).
    pose proof (numbered_item_length 1 d2). simpl length at 3. lia.
Qed.

Lemma rule_based_response_is_short_witness :
  exists text,
    _generate_rule_based_response (lit "What is bail?")
                                  [doc_equality; doc_bail; doc_unscored]
    = Ok text /\
    (length text <= 830)%nat.
Proof.
  eexists. split; [reflexivity |].
  apply (rule_based_response_is_short (lit "What is bail?")
           [doc_equality; doc_bail; doc_unscored]).
  reflexivity.
Defined.

(** X17.  Retrieval followed by generation.  Whatever the store and the
    model do, the list that [retrieve_relevant_docs] returns is accepted by
    [generate_legal_response] without any exception: the sources of the
    answer are the metadata of all the entries retrieved, and for a list
    that is not empty the confidence is the mean of their scores and the
    answer is not the apology answer. *)
Theorem generate_on_retrieved_docs
  (r : LegalRetriever) (g : LegalResponseGenerator) (query : str) (k : nat) :
  exists relevant_docs answer,
    retrieve_relevant_docs r query k = Ok relevant_docs /\
    generate_legal_response g query relevant_docs = Ok answer /\
    sources answer = map metadata_of relevant_docs /\
    (relevant_docs <> [] ->
     confidence answer == mean (map score_of relevant_docs) /\
     answer <> degraded_answer).
Proof.
  destruct (retrieve_total r query k) as (docs & Hdocs).
  pose proof (retrieve_well_formed r query k docs Hdocs) as Hwf.
  destruct (generate_steps g query docs Hwf)
    as (context & text & c & _ & _ & Hc & Hanswer).
  eexists docs, _. split; [exact Hdocs |]. split; [exact Hanswer |].
  split; [reflexivity |]. intros Hne. cbn [confidence]. split.
  - destruct (calculate_confidence_mean docs Hwf Hne) as (c' & Hc' & Hmean).
    rewrite Hc in Hc'. injection Hc' as <-. exact Hmean.
  - intros Heq. apply (f_equal sources) in Heq. cbn [sources] in Heq.
    destruct docs; [congruence | discriminate].
Qed.

(** X19.  The query step of the command line.  It never raises.  It shows
    the "no relevant information" lines exactly when retrieval returns the
    empty list.  Otherwise it shows an answer that is not the apology
    answer and has as many sources as entries were retrieved, at least one;
    and when the model failed to load, the response begins with the header
    of the rule-based responder: its no-information message is never shown
    here. *)
Theorem cli_answer_cases
  (r : LegalRetriever) (g : LegalResponseGenerator) (query : str) :
  exists relevant_docs shown,
    retrieve_relevant_docs r query 5 = Ok relevant_docs /\
    cli_answer r g query = Ok shown /\
    (shown = None <-> relevant_docs = []) /\
    (forall answer, shown = Some answer ->
       answer <> degraded_answer /\
       length (sources answer) = length relevant_docs /\
       sources answer <> [] /\
       (generator g = None ->
        exists rest, response answer = rule_based_header ++ rest)).
Proof.
  destruct (retrieve_total r query 5) as (docs & Hdocs).
  pose proof (retrieve_well_formed r query 5 docs Hdocs) as Hwf.
  destruct (generate_steps g query docs Hwf)
    as (context & text & c & _ & Htext & _ & Hanswer).
  unfold cli_answer. rewrite Hdocs. cbn [bind].
  destruct docs as [| doc rest].
  - exists [], None. repeat split; try reflexivity; discriminate.
  - rewrite Hanswer. cbn [bind]. eexists (doc :: rest), _.
    split; [reflexivity |]. split; [reflexivity |].
    split; [split; discriminate |].
    intros answer H. injection H as <-. cbn [sources response].
    split; [intros Heq; apply (f_equal sources) in Heq; discriminate |].
    split; [apply (length_map metadata_of (doc :: rest)) |].
    split; [discriminate |].
    intros Hnone. unfold select_response in Htext.
    rewrite Hnone, (rule_based_ok query (doc :: rest) Hwf) in Htext.
    injection Htext as <-. unfold rule_based_text. eexists. reflexivity.
Qed.

End ModelPathAndCallers.

(* ================================================================== *)
(** * Characters of the chunks, and the three processors *)
(* ================================================================== *)

Section ChunkCharacters.

Import Ingestion.

Variable P : ascii -> Prop.

Lemma skipn_Forall {A : Type} (Q : A -> Prop) (n : nat) (l : list A) :
  Forall Q l -> Forall Q (skipn n l).
Proof.
  intros H. rewrite <- (firstn_skipn n l) in H. apply Forall_app in H. tauto.
Qed.

Lemma cons_head_Forall (c : ascii) (l : list str) :
  P c -> Forall (Forall P) l -> Forall (Forall P) (cons_head c l).
Proof.
  intros Hc Hl. destruct l as [| x l]; cbn [cons_head].
  - repeat constructor. exact Hc.
  - inversion Hl; subst. constructor; [constructor |]; assumption.
Qed.

Lemma split_fuel_Forall (sep : str) (fuel : nat) :
  forall t, Forall P t -> Forall (Forall P) (split_fuel fuel sep t).
Proof.
  induction fuel as [| f IH]; intros t H; [repeat constructor; exact H |].
  destruct t as [| c rest]; [repeat constructor |].
  cbn [split_fuel]. destruct (startswith sep (c :: rest)).
  - constructor; [constructor |]. apply IH, skipn_Forall, H.
  - inversion H; subst. apply cons_head_Forall; [assumption |].
    apply IH. assumption.
Qed.

Lemma words_Forall (t : str) : Forall P t -> Forall (Forall P) (words t).
Proof.
  induction t as [| c t IH]; intros H; [constructor |].
  inversion H as [| ? ? Hc Ht]; subst. specialize (IH Ht).
  cbn [words]. destruct (is_space c); [exact IH |].
  destruct t as [| d t']; [repeat constructor; exact Hc |].
  destruct (is_space d).
  - constructor; [repeat constructor; exact Hc | exact IH].
  - apply cons_head_Forall; assumption.
Qed.

Lemma join_Forall (sep : str) (l : list str) :
  Forall P sep -> Forall (Forall P) l -> Forall P (join sep l).
Proof.
  intros Hsep. induction 1 as [| x l Hx Hl IH]; [constructor |].
  cbn [join]. destruct l; [exact Hx |].
  apply Forall_app. split; [exact Hx |]. apply Forall_app. split; assumption.
Qed.

Hypothesis P_stop : P "."%char.
Hypothesis P_space : P " "%char.

Lemma chunk_step_Forall (p : DocumentProcessor) st s :
  Forall (Forall P) (fst st) -> Forall P (snd st) -> Forall P s ->
  Forall (Forall P) (fst (chunk_step p st s)) /\
  Forall P (snd (chunk_step p st s)).
Proof.
  destruct st as [chunks cur]. cbn [fst snd]. intros Hchunks Hcur Hs.
  unfold chunk_step. destruct (_ && _); cbn [fst snd].
  - split.
    + apply Forall_app. split; [exact Hchunks |].
      constructor; [apply strip_Forall, Hcur | constructor].
    + apply Forall_app. split.
      * apply join_Forall; [repeat constructor; exact P_space |].
        apply py_tail_Forall, words_Forall, Hcur.
      * constructor; assumption.
  - split; [exact Hchunks |].
    apply Forall_app. split; [exact Hcur |].
    apply Forall_app. split; [exact Hs |]. repeat constructor; assumption.
Qed.

Lemma fold_chunk_step_Forall (p : DocumentProcessor) (sentences : list str) :
  forall st,
    Forall (Forall P) sentences ->
    Forall (Forall P) (fst st) -> Forall P (snd st) ->
    Forall (Forall P) (fst (fold_left (chunk_step p) sentences st)) /\
    Forall P (snd (fold_left (chunk_step p) sentences st)).
Proof.
  induction sentences as [| s rest IH]; intros st Hall Hchunks Hcur;
    [split; assumption |].
  inversion Hall as [| ? ? Hs Hrest]; subst. cbn [fold_left].
  destruct (chunk_step_Forall p st s Hchunks Hcur Hs) as [Hc1 Hc2].
  apply IH; assumption.
Qed.

(** The chunker invents no characters but the full stop and the space:
    what holds of every character of the text, of the full stop and of the
    space holds of every character of every chunk. *)
Lemma create_chunks_Forall (p : DocumentProcessor) (text : str) :
  Forall P text -> Forall (Forall P) (_create_chunks p text).
Proof.
  intros Htext. unfold _create_chunks.
  destruct (fold_chunk_step_Forall p (split (lit ". ") text) ([], []))
    as [H1 H2]; try constructor.
  { apply split_fuel_Forall, Htext. }
  destruct (fold_left _ _ _) as [chunks cur]. cbn [fst snd] in *.
  unfold flush. destruct (truthy (strip cur)); [| exact H1].
  apply Forall_app. split; [exact H1 |].
  constructor; [apply strip_Forall, H2 | constructor].
Qed.

End ChunkCharacters.

Section Processors.

Import Ingestion.

(** X20.  The characters of the chunks of an ASCII text file.  Every chunk
    is ASCII text, and every character of every chunk is a full stop, or a
    character that cleaning can leave: one of the class kept by the filter,
    and no white space but the plain space.  So tabs, line breaks and the
    characters that the filter deletes never reach a chunk. *)
Theorem chunk_characters_are_clean
  (p : DocumentProcessor) (file_path full_text : str) :
  is_ascii_text full_text ->
  Forall (fun c => is_ascii_text (content c) /\ Forall clean_char (content c))
         (process_text_file p file_path (Ok full_text)).
Proof.
  intros Hascii. unfold process_text_file.
  assert (H : Forall (Forall (fun c => nat_of_ascii c < 128 /\ clean_char c))
                     (_create_chunks p (_clean_text full_text))).
  { apply create_chunks_Forall.
    - split; [apply Nat.ltb_lt; reflexivity |].
      split; [reflexivity | discriminate].
    - split; [apply Nat.ltb_lt; reflexivity |].
      split; [reflexivity | reflexivity].
    - apply Forall_and; [| apply clean_text_clean_chars].
      apply (clean_text_Forall (fun c => nat_of_ascii c < 128));
        [apply Nat.ltb_lt; reflexivity | exact Hascii]. }
  rewrite <- (chunk_objects_content file_path (lit "txt")) in H.
  rewrite Forall_map in H. eapply Forall_impl; [| exact H].
  intros c Hc. unfold is_ascii_text. apply Forall_and_inv in Hc. exact Hc.
Qed.

Lemma chunk_characters_are_clean_witness :
  is_ascii_text two_line_text /\
  map content (process_text_file small_processor (lit "notes.txt")
                                 (Ok two_line_text))
  = [lit "Bail is the rule.";
     lit "Bail is the rule. Jail is the exception"] /\
  Forall (fun c => is_ascii_text (content c) /\ Forall clean_char (content c))
         (process_text_file small_processor (lit "notes.txt")
            (Ok two_line_text)).
Proof.
  assert (H : is_ascii_text two_line_text)
    by (apply is_ascii_text_check; reflexivity).
  split; [exact H |]. split; [reflexivity |].
  exact (chunk_characters_are_clean small_processor (lit "notes.txt") _ H).
Defined.

Lemma chunk_objects_nil (file_path doc_type : str) (text_chunks : list str) :
  chunk_objects file_path doc_type text_chunks = [] -> text_chunks = [].
Proof.
  intros H. apply (f_equal (@length Chunk)) in H.
  rewrite chunk_objects_length in H. destruct text_chunks; [reflexivity |].
  discriminate.
Qed.

(** X21.  Each of the three processors returns the empty list exactly when
    reading the file raised: a file that could be read, even an empty one,
    always gives at least one chunk. *)
Theorem processors_empty_iff_unreadable
  (p : DocumentProcessor) (file_path : str) :
  (forall file : result str,
      process_text_file p file_path file = [] <-> exists e, file = Raise e) /\
  (forall reader : result (list str),
      process_pdf p file_path reader = [] <-> exists e, reader = Raise e) /\
  (forall document : result (list str),
      process_docx p file_path document = [] <-> exists e, document = Raise e).
Proof.
  repeat split;
    try (intros [e ->]; reflexivity);
    (destruct file as [t | e] || destruct reader as [t | e]
     || destruct document as [t | e]);
    try (intros _; eexists; reflexivity);
    intros H; apply chunk_objects_nil in H;
    exfalso;
    match type of H with
    | _create_chunks p ?text = [] =>
      destruct (create_chunks_state p text) as (chunks & cur & _ & Heq & _)
    end;
    rewrite Heq in H; destruct chunks; discriminate.
Qed.

End Processors.

(* ================================================================== *)
(** * The page markers of [process_pdf] *)
(* ================================================================== *)

Section PdfMarkers.

Import Ingestion.

Lemma little_succ_not_nil (d : Decimal.uint) :
  Decimal.Little.succ d <> Decimal.Nil.
Proof. destruct d; discriminate. Qed.

Lemma to_little_uint_not_nil (n : nat) :
  forall acc, acc <> Decimal.Nil -> Nat.to_little_uint n acc <> Decimal.Nil.
Proof.
  induction n as [| n IH]; intros acc H; [exact H |].
  simpl. apply IH, little_succ_not_nil.
Qed.

Lemma revapp_not_nil (d : Decimal.uint) :
  forall acc, d <> Decimal.Nil \/ acc <> Decimal.Nil ->
              Decimal.revapp d acc <> Decimal.Nil.
Proof.
  induction d; intros acc [H | H]; simpl; try congruence;
    try (apply IHd; right; discriminate).
Qed.

Lemma str_of_nat_not_nil (n : nat) : str_of_nat n <> [].
Proof.
  unfold str_of_nat, Nat.to_uint, Decimal.rev.
  assert (H : Decimal.revapp (Nat.to_little_uint n Decimal.zero) Decimal.Nil
              <> Decimal.Nil).
  { apply revapp_not_nil. left. apply to_little_uint_not_nil. discriminate. }
  destruct (Decimal.revapp _ _); [congruence | | | | | | | | | |]; discriminate.
Qed.

Lemma str_of_nat_digits (n : nat) :
  Forall (fun c => is_digit c = true) (str_of_nat n).
Proof.
  unfold str_of_nat. generalize (Nat.to_uint n). intros u.
  induction u; simpl; constructor; (reflexivity || assumption).
Qed.

Lemma sub_spaces_app (x y : str) :
  forall b, exists b', sub_spaces b (x ++ y) = sub_spaces b x ++ sub_spaces b' y.
Proof.
  induction x as [| c x IH]; intros b; [exists b; reflexivity |].
  cbn [app sub_spaces]. destruct (is_space c); [destruct b |].
  - destruct (IH true) as [b' ->]. exists b'. reflexivity.
  - destruct (IH true) as [b' ->]. exists b'. reflexivity.
  - destruct (IH false) as [b' ->]. exists b'. reflexivity.
Qed.

Lemma digit_not_space (c : ascii) : is_digit c = true -> is_space c = false.
Proof.
  unfold is_digit, is_space. intros H. apply andb_true_iff in H.
  destruct H as [H1 H2]. apply Nat.leb_le in H1. apply Nat.leb_le in H2.
  apply orb_false_iff. split; apply andb_false_iff.
  - right. apply Nat.leb_gt. lia.
  - right. apply Nat.leb_gt. lia.
Qed.

Lemma digit_is_legal (c : ascii) : is_digit c = true -> legal_char c = true.
Proof.
  intros H. unfold legal_char, is_word. rewrite H.
  repeat rewrite orb_true_r. reflexivity.
Qed.

Lemma digit_not_hyphen (c : ascii) : is_digit c = true -> c <> "-"%char.
Proof. intros H ->. discriminate. Qed.

Lemma sub_spaces_digits (ds z : str) :
  Forall (fun c => is_digit c = true) ds -> ds <> [] ->
  forall b, sub_spaces b (ds ++ z) = ds ++ sub_spaces false z.
Proof.
  induction 1 as [| c ds Hc Hds IH]; intros Hne b; [congruence |].
  cbn [app sub_spaces]. rewrite (digit_not_space c Hc). f_equal.
  destruct ds as [| d ds']; [reflexivity |].
  apply IH. discriminate.
Qed.

Lemma filter_digits (ds : str) :
  Forall (fun c => is_digit c = true) ds -> filter legal_char ds = ds.
Proof.
  induction 1 as [| c ds Hc _ IH]; [reflexivity |].
  cbn [filter]. rewrite (digit_is_legal c Hc), IH. reflexivity.
Qed.

Lemma drop_digits_app (ds z : str) :
  Forall (fun c => is_digit c = true) ds ->
  drop_digits (ds ++ z) = drop_digits z.
Proof.
  induction 1 as [| c ds Hc _ IH]; [reflexivity |].
  cbn [app drop_digits]. rewrite Hc. exact IH.
Qed.

Lemma match_page_marker_found (ds rest : str) :
  ds <> [] -> Forall (fun c => is_digit c = true) ds ->
  match_page_marker (page_marker ds ++ rest) = Some rest.
Proof.
  intros Hne Hds. unfold page_marker, match_page_marker.
  repeat rewrite <- app_assoc. rewrite startswith_app.
  change (skipn 9 (lit "--- Page " ++ ds ++ lit " ---" ++ rest))
    with (ds ++ lit " ---" ++ rest).
  cbv zeta. rewrite (drop_digits_app ds _ Hds).
  change (drop_digits (lit " ---" ++ rest)) with (lit " ---" ++ rest).
  rewrite startswith_app.
  assert (Hlt : (length (lit " ---" ++ rest)
                 <? length (ds ++ lit " ---" ++ rest)) = true).
  { apply Nat.ltb_lt. rewrite (length_app ds).
    destruct ds; [congruence | simpl; lia]. }
  rewrite Hlt. reflexivity.
Qed.

Lemma match_page_marker_not_hyphen (c : ascii) (t : str) :
  c <> "-"%char -> match_page_marker (c :: t) = None.
Proof.
  intros Hc. unfold match_page_marker.
  change (lit "--- Page ") with ("-"%char :: lit "-- Page ").
  cbn [startswith].
  assert (H : Ascii.eqb "-" c = false)
    by (apply Ascii.eqb_neq; congruence).
  rewrite H. reflexivity.
Qed.

Lemma remove_page_markers_skip (x y : str) :
  no_hyphen x ->
  forall fuel, length (x ++ y) <= fuel ->
    remove_page_markers fuel (x ++ y) =
    x ++ remove_page_markers (fuel - length x) y.
Proof.
  induction 1 as [| c x Hc _ IH]; intros fuel Hf.
  - cbn [app length]. rewrite Nat.sub_0_r. reflexivity.
  - destruct fuel as [| f]; [simpl in Hf; lia |].
    cbn [app remove_page_markers]. rewrite (match_page_marker_not_hyphen c _ Hc).
    rewrite IH by (simpl in Hf; lia). reflexivity.
Qed.

(** Removing the markers from a text whose hyphens all belong to markers
    leaves no hyphen. *)
Lemma remove_page_markers_marked (u : str) :
  marked u ->
  forall fuel, length u <= fuel -> no_hyphen (remove_page_markers fuel u).
Proof.
  induction 1 as [x Hx | x ds rest Hx Hne Hds _ IH]; intros fuel Hf.
  - apply remove_page_markers_Forall, Hx.
  - rewrite (remove_page_markers_skip x _ Hx fuel Hf).
    apply Forall_app. split; [exact Hx |].
    rewrite !length_app in Hf.
    assert (Hm : 13 <= length (page_marker ds)).
    { unfold page_marker. rewrite !length_app. simpl. lia. }
    destruct (fuel - length x) as [| f] eqn:Hfuel; [lia |].
    destruct (page_marker ds ++ rest) as [| c t] eqn:Heq.
    { apply (f_equal (@length ascii)) in Heq. rewrite length_app in Heq.
      simpl in Heq. lia. }
    cbn [remove_page_markers]. rewrite <- Heq.
    rewrite (match_page_marker_found ds rest Hne Hds).
    apply IH. lia.
Qed.

Lemma marked_prepend (x u : str) : no_hyphen x -> marked u -> marked (x ++ u).
Proof.
  intros Hx Hu. destruct Hu as [y Hy | y ds rest Hy Hne Hds Hrest].
  - apply marked_plain, Forall_app. split; assumption.
  - rewrite app_assoc. apply marked_cons; try assumption.
    apply Forall_app. split; assumption.
Qed.

Lemma cleaned_page_no_hyphen (text : str) (b : bool) :
  no_hyphen text -> no_hyphen (filter legal_char (sub_spaces b text)).
Proof.
  intros H. apply filter_Forall, sub_spaces_Forall; [discriminate | exact H].
Qed.

(** After the first two substitutions of [_clean_text], the hyphens of the
    text of a PDF whose pages have none all belong to page markers. *)
Lemma pdf_text_marked (pages : list str) :
  Forall no_hyphen pages ->
  forall start b,
    marked (filter legal_char
              (sub_spaces b
                 (concat (map (fun '(page_num, text) =>
                                 [ascii_of_nat 10] ++ lit "--- Page "
                                 ++ str_of_nat (page_num + 1) ++ lit " ---"
                                 ++ [ascii_of_nat 10] ++ text)
                              (combine (seq start (length pages)) pages))))).
Proof.
  induction 1 as [| text pages Htext _ IH]; intros start b.
  - apply marked_plain. constructor.
  - cbn [length seq combine map concat].
    set (rest := concat _).
    set (ds := str_of_nat (start + 1)).
    pose proof (str_of_nat_digits (start + 1)) as Hds.
    pose proof (str_of_nat_not_nil (start + 1)) as Hne.
    fold ds in Hds, Hne.
    repeat rewrite <- app_assoc.
    assert (Hsub : exists b',
               sub_spaces b
                 ([ascii_of_nat 10] ++ lit "--- Page " ++ ds ++ lit " ---"
                  ++ [ascii_of_nat 10] ++ text ++ rest) =
               (if b then [] else lit " ") ++ lit "--- Page " ++ ds
               ++ lit " --- " ++ sub_spaces true text ++ sub_spaces b' rest).
    { destruct (sub_spaces_app text rest true) as [b' Hb'].
      exists b'. rewrite <- Hb'.
      change (sub_spaces b ([ascii_of_nat 10] ++ lit "--- Page " ++ ds
                            ++ lit " ---" ++ [ascii_of_nat 10] ++ text ++ rest))
        with ((if b then sub_spaces true
                 (lit "--- Page " ++ ds ++ lit " ---" ++ [ascii_of_nat 10]
                  ++ text ++ rest)
               else " "%char :: sub_spaces true
                 (lit "--- Page " ++ ds ++ lit " ---" ++ [ascii_of_nat 10]
                  ++ text ++ rest))).
      change (sub_spaces true
                (lit "--- Page " ++ ds ++ lit " ---" ++ [ascii_of_nat 10]
                 ++ text ++ rest))
        with (lit "--- Page "
              ++ sub_spaces true (ds ++ lit " ---" ++ [ascii_of_nat 10]
                                  ++ text ++ rest)).
      rewrite (sub_spaces_digits ds _ Hds Hne).
      change (sub_spaces false (lit " ---" ++ [ascii_of_nat 10] ++ text ++ rest))
        with (lit " --- " ++ sub_spaces true (text ++ rest)).
      destruct b; reflexivity. }
    destruct Hsub as [b' ->].
    repeat rewrite filter_app. rewrite (filter_digits ds Hds).
    change (filter legal_char (lit "--- Page ")) with (lit "--- Page ").
    change (filter legal_char (lit " --- ")) with (lit " ---" ++ lit " ").
    replace (filter legal_char (if b then [] else lit " "))
      with (if b then [] else lit " ") by (destruct b; reflexivity).
    replace (lit "--- Page " ++ ds ++ (lit " ---" ++ lit " ")
             ++ filter legal_char (sub_spaces true text)
             ++ filter legal_char (sub_spaces b' rest))
      with (page_marker ds
            ++ (lit " " ++ filter legal_char (sub_spaces true text))
            ++ filter legal_char (sub_spaces b' rest))
      by (unfold page_marker; repeat rewrite <- app_assoc; reflexivity).
    apply marked_cons; try assumption.
    + destruct b; repeat constructor; discriminate.
    + apply marked_prepend.
      * apply Forall_app. split; [repeat constructor; discriminate |].
        apply cleaned_page_no_hyphen, Htext.
      * apply IH.
Qed.

(** X22.  When no page of a PDF holds a hyphen, no chunk made from it holds
    one: the page markers that [process_pdf] writes between the pages are
    all removed by the cleaning and never reach a chunk. *)
Theorem pdf_page_markers_are_removed
  (p : DocumentProcessor) (file_path : str) (pages : list str) :
  Forall no_hyphen pages ->
  Forall (fun c => no_hyphen (content c)) (process_pdf p file_path (Ok pages)).
Proof.
  intros Hpages. unfold process_pdf.
  assert (H : Forall no_hyphen
                     (_create_chunks p (_clean_text (pdf_full_text pages)))).
  { apply create_chunks_Forall; try discriminate.
    unfold _clean_text. apply strip_Forall.
    apply remove_page_markers_marked; [| apply Nat.le_refl].
    apply (pdf_text_marked pages Hpages 0 false). }
  rewrite <- (chunk_objects_content file_path (lit "pdf")) in H.
  rewrite Forall_map in H. exact H.
Qed.

Lemma pdf_page_markers_are_removed_witness :
  let pages := [lit "Bail is a right."; lit "Jail is the exception."] in
  Forall no_hyphen pages /\
  map content (process_pdf new_processor (lit "acts.pdf") (Ok pages)) =
  [lit "Bail is a right.  Jail is the exception.."] /\
  Forall (fun c => no_hyphen (content c))
         (process_pdf new_processor (lit "acts.pdf") (Ok pages)).
Proof.
  intros pages.
  assert (H : Forall no_hyphen pages)
    by (repeat constructor; discriminate).
  split; [exact H |]. split; [vm_compute; reflexivity |].
  exact (pdf_page_markers_are_removed new_processor (lit "acts.pdf") pages H).
Defined.

End PdfMarkers.
